(** * Smile-gesture detector and Flappy physics: a shallow embedding

    The development follows [src/face-detection.js] (class [FaceDetector])
    and [src/game.js] (class [FlappyGame]).  The repository holds a second,
    earlier variant of each class; the methods modelled here
    ([processResults], [getBlendshapeScore], [detectSmile], [flap],
    [update], [spawnObstacle], [checkCollision], [handleGameOver],
    [showCTAScreen]) have the same bodies there, up to sound and analytics
    calls; [gameLoop] is the frame-capped one of [src/game.js].

    Modelling conventions.
    - A JavaScript number is modelled as an exact rational ([Q]); rounding
      of IEEE doubles, [NaN] and infinities are outside that model.  Module
      [Binary64] repeats [detectSmile] over primitive binary64 floats, to
      replay concrete runs with the arithmetic the engine uses.
      Millisecond timestamps returned by [Date.now()] and the integral
      score counters are integers ([Z]).
    - An object is a record; a method is a function from the receiver's
      state (and the values it reads from the environment: the clock,
      [Math.random()]) to the new state.
    - The callback [onSmileChange] is recorded as an optional handler; a
      method that may invoke it returns the argument of the invocation
      ([Some b]) or [None] when no invocation happens.
    - [console.log], canvas drawing and [updateUI] (which only reads the
      detector state) are not modelled.

    Beyond the methods above, module [System] runs the detector's
    callback on the game, and module [Page] models [startCountdown] with
    its timer callback, [startNextRound] and [quitGame] of
    [src/game.js]; timers made by [setInterval] are kept as a list of
    live closures, and the time between their callbacks is not
    modelled.  [startGame] (camera and model loading), [setupCTA],
    [resizeCanvas], [loadAssets] and the audio helpers are left out. *)

From Corelib Require Import PrimFloat.
From Stdlib Require Import String.
From Stdlib Require Import QArith Lqa ZArith List Bool Lia.
Import ListNotations.

(* Decimal literals such as 0.9 denote the nearest binary64 value. *)
Set Warnings "-inexact-float".

Open Scope Q_scope.

(** ** Comparison of numbers as booleans *)

(** [a < b] of JavaScript. *)
Definition Qltb (a b : Q) : bool :=
  match a ?= b with
  | Lt => true
  | _ => false
  end.

(** [a > b] of JavaScript. *)
Definition Qgtb (a b : Q) : bool := Qltb b a.

(** The last [n] elements of a list. *)
Definition lastN {A : Type} (n : nat) (l : list A) : list A :=
  skipn (length l - n) l.

(** ** [FaceDetector] *)

Module FaceDetection.

(** The only function the repository ever stores in [onSmileChange] is the
    closure built by [FlappyGame.startGame]. *)
Inductive SmileCallback : Type :=
| GameFlapCallback.

Record FaceDetector : Type := mkFaceDetector {
  smileScore : Q;
  isSmiling : bool;
  smileBuffer : list Q;
  onSmileChange : option SmileCallback
}.

(** Fields set once by the constructor and never assigned again. *)
Definition bufferSize : nat := 5.
Definition triggerThreshold : Q := 0.6.
Definition resetThreshold : Q := 0.4.

(** [new FaceDetector()]. *)
Definition newFaceDetector : FaceDetector :=
  {| smileScore := 0;
     isSmiling := false;
     smileBuffer := [];
     onSmileChange := None |}.

(** The result of [faceLandmarker.detectForVideo]: [faceBlendshapes] is
    absent or an array with one entry per detected face. *)
Record Category : Type := mkCategory {
  categoryName : string;
  score : Q
}.

Record Classifications : Type := mkClassifications {
  categories : list Category
}.

Record Results : Type := mkResults {
  faceBlendshapes : option (list Classifications)
}.

Definition getBlendshapeScore (blendshapes : list Category) (name : string) : Q :=
  match find (fun b => String.eqb (categoryName b) name) blendshapes with
  | Some shape => score shape
  | None => 0
  end.

(** [smileBuffer.reduce((a, b) => a + b, 0)]. *)
Definition sumBuffer (buf : list Q) : Q := fold_left Qplus buf 0.

(** [push] followed by the conditional [shift]. *)
Definition pushScore (buf : list Q) (x : Q) : list Q :=
  let pushed := buf ++ [x] in
  if (bufferSize <? length pushed)%nat then tl pushed else pushed.

Definition detectSmile (x : Q) (d : FaceDetector) : FaceDetector * option bool :=
  let buf := pushScore (smileBuffer d) x in
  let smoothed := sumBuffer buf / inject_Z (Z.of_nat (length buf)) in
  let wasSmiling := isSmiling d in
  let nowSmiling :=
    if negb wasSmiling
    then (if Qgtb smoothed triggerThreshold then true else wasSmiling)
    else (if Qltb smoothed resetThreshold then false else wasSmiling) in
  let d' := {| smileScore := smoothed;
               isSmiling := nowSmiling;
               smileBuffer := buf;
               onSmileChange := onSmileChange d |} in
  let call :=
    if negb (Bool.eqb wasSmiling nowSmiling)
    then match onSmileChange d with
         | Some _ => Some nowSmiling
         | None => None
         end
    else None in
  (d', call).

Definition processResults (results : Results) (d : FaceDetector)
  : FaceDetector * option bool :=
  match faceBlendshapes results with
  | None | Some [] =>
      (* No face detected *)
      ({| smileScore := 0;
          isSmiling := isSmiling d;
          smileBuffer := smileBuffer d;
          onSmileChange := onSmileChange d |}, None)
  | Some (face :: _) =>
      let blendshapes := categories face in
      let smileLeft := getBlendshapeScore blendshapes "mouthSmileLeft"%string in
      let smileRight := getBlendshapeScore blendshapes "mouthSmileRight"%string in
      let smileScore := (smileLeft + smileRight) / 2 in
      detectSmile smileScore d
  end.

(** The assignment [faceDetector.onSmileChange = ...]. *)
Definition set_onSmileChange (cb : option SmileCallback) (d : FaceDetector)
  : FaceDetector :=
  {| smileScore := smileScore d;
     isSmiling := isSmiling d;
     smileBuffer := smileBuffer d;
     onSmileChange := cb |}.

(** Whether [processResults] takes its face branch on these results. *)
Definition hasFace (results : Results) : bool :=
  match faceBlendshapes results with
  | None | Some [] => false
  | Some (_ :: _) => true
  end.

(** Successive calls: the detector after each call, with the callback
    invocation that call made. *)
Fixpoint detectTrace (scores : list Q) (d : FaceDetector)
  : list (FaceDetector * option bool) :=
  match scores with
  | [] => []
  | x :: rest =>
      let r := detectSmile x d in
      r :: detectTrace rest (fst r)
  end.

Definition detectAll (scores : list Q) (d : FaceDetector) : FaceDetector :=
  fold_left (fun d x => fst (detectSmile x d)) scores d.

Fixpoint processTrace (frames : list Results) (d : FaceDetector)
  : list (FaceDetector * option bool) :=
  match frames with
  | [] => []
  | f :: rest =>
      let r := processResults f d in
      r :: processTrace rest (fst r)
  end.

Definition processAll (frames : list Results) (d : FaceDetector) : FaceDetector :=
  fold_left (fun d f => fst (processResults f d)) frames d.

(** A frame in which the landmarker found no face. *)
Definition noFace : Results := {| faceBlendshapes := Some [] |}.
Definition noBlendshapes : Results := {| faceBlendshapes := None |}.

End FaceDetection.

(** ** [detectSmile] over binary64 numbers

    The same method with the numbers read as IEEE 754 doubles, which is
    what the JavaScript engine computes with; names carry the suffix 64.
    It is used to replay concrete runs; the general facts are proved on
    the rational model. *)

Module Binary64.

Record FaceDetector64 : Type := mkFaceDetector64 {
  smileScore64 : float;
  isSmiling64 : bool;
  smileBuffer64 : list float;
  onSmileChange64 : option FaceDetection.SmileCallback
}.

Definition bufferSize64 : nat := 5.
Definition triggerThreshold64 : float := 0.6%float.
Definition resetThreshold64 : float := 0.4%float.

Definition newFaceDetector64 : FaceDetector64 :=
  {| smileScore64 := 0%float;
     isSmiling64 := false;
     smileBuffer64 := [];
     onSmileChange64 := None |}.

Definition set_onSmileChange64 (cb : option FaceDetection.SmileCallback)
    (d : FaceDetector64) : FaceDetector64 :=
  {| smileScore64 := smileScore64 d;
     isSmiling64 := isSmiling64 d;
     smileBuffer64 := smileBuffer64 d;
     onSmileChange64 := cb |}.

(** The length of an array as a number. *)
Fixpoint lengthNumber (buf : list float) : float :=
  match buf with
  | [] => 0%float
  | _ :: rest => PrimFloat.add (lengthNumber rest) 1%float
  end.

Definition sumBuffer64 (buf : list float) : float :=
  fold_left PrimFloat.add buf 0%float.

Definition pushScore64 (buf : list float) (x : float) : list float :=
  let pushed := buf ++ [x] in
  if (bufferSize64 <? length pushed)%nat then tl pushed else pushed.

Definition detectSmile64 (x : float) (d : FaceDetector64)
  : FaceDetector64 * option bool :=
  let buf := pushScore64 (smileBuffer64 d) x in
  let smoothed := PrimFloat.div (sumBuffer64 buf) (lengthNumber buf) in
  let wasSmiling := isSmiling64 d in
  let nowSmiling :=
    if negb wasSmiling
    then (if PrimFloat.ltb triggerThreshold64 smoothed then true else wasSmiling)
    else (if PrimFloat.ltb smoothed resetThreshold64 then false else wasSmiling) in
  let d' := {| smileScore64 := smoothed;
               isSmiling64 := nowSmiling;
               smileBuffer64 := buf;
               onSmileChange64 := onSmileChange64 d |} in
  let call :=
    if negb (Bool.eqb wasSmiling nowSmiling)
    then match onSmileChange64 d with
         | Some _ => Some nowSmiling
         | None => None
         end
    else None in
  (d', call).

Fixpoint detectTrace64 (scores : list float) (d : FaceDetector64)
  : list (FaceDetector64 * option bool) :=
  match scores with
  | [] => []
  | x :: rest =>
      let r := detectSmile64 x d in
      r :: detectTrace64 rest (fst r)
  end.

End Binary64.

(** ** [FlappyGame] *)

Module Game.

Import FaceDetection.

(** One entry of [this.obstacles]. *)
Record Obstacle : Type := mkObstacle {
  x : Q;
  gapTop : Q;
  gapBottom : Q;
  passed : bool;
  id : Z
}.

(** Calls the game makes to its collaborators (audio, analytics, the frame
    scheduler, the face detector), in the order it makes them. *)
Inductive Effect : Type :=
| PlaySound (name : string)
| StopBGM
| LogEvent (name : string)
| RequestAnimationFrame
| CancelAnimationFrame
| StopFaceDetector.

Record FlappyGame : Type := mkFlappyGame {
  (* Game state *)
  birdY : Q;
  birdVelocity : Q;
  obstacles : list Obstacle;
  score : Z;
  gameStarted : bool;
  gameOver : bool;
  lastFlapTime : Z;
  (* Session state *)
  currentRound : Z;
  bestScore : Z;
  (* Animation: [animationId] holds a request id ([true]) or null;
     [lastGameLoopTime] is replaced by 0 while undefined, so it starts at 0 *)
  animationId : bool;
  lastGameLoopTime : Q;
  (* whether [this.faceDetector] holds a detector *)
  faceDetector : bool;
  (* the page: class [active] of the game and CTA screens, class [hidden]
     of the round-over overlay; text nodes are not modelled *)
  gameScreenActive : bool;
  ctaScreenActive : bool;
  roundOverOverlayHidden : bool;
  (* collaborator calls made so far, latest first *)
  effects : list Effect
}.

(** Game constants (set in the constructor, never assigned again). *)
Definition SCREEN_WIDTH : Q := 640.
Definition SCREEN_HEIGHT : Q := 480.
Definition GRAVITY : Q := 0.2.
Definition FLAP_STRENGTH : Q := -7.
Definition OBSTACLE_SPEED : Q := 2.5.
Definition OBSTACLE_WIDTH : Q := 80.
Definition GAP_SIZE : Q := 200.
Definition BIRD_SIZE : Q := 60.
Definition BIRD_X : Q := 150.
Definition SPAWN_DISTANCE : Q := 300.
Definition MIN_FLAP_INTERVAL : Z := 500.
Definition maxRounds : Z := 3.

(** Assignment to one field. *)
Definition set_birdY (v : Q) (g : FlappyGame) : FlappyGame :=
  {| birdY := v; birdVelocity := birdVelocity g; obstacles := obstacles g;
     score := score g; gameStarted := gameStarted g;
     gameOver := gameOver g; lastFlapTime := lastFlapTime g;
     currentRound := currentRound g; bestScore := bestScore g;
     animationId := animationId g; lastGameLoopTime := lastGameLoopTime g;
     faceDetector := faceDetector g;
     gameScreenActive := gameScreenActive g;
     ctaScreenActive := ctaScreenActive g;
     roundOverOverlayHidden := roundOverOverlayHidden g;
     effects := effects g |}.

Definition set_birdVelocity (v : Q) (g : FlappyGame) : FlappyGame :=
  {| birdY := birdY g; birdVelocity := v; obstacles := obstacles g;
     score := score g; gameStarted := gameStarted g;
     gameOver := gameOver g; lastFlapTime := lastFlapTime g;
     currentRound := currentRound g; bestScore := bestScore g;
     animationId := animationId g; lastGameLoopTime := lastGameLoopTime g;
     faceDetector := faceDetector g;
     gameScreenActive := gameScreenActive g;
     ctaScreenActive := ctaScreenActive g;
     roundOverOverlayHidden := roundOverOverlayHidden g;
     effects := effects g |}.

Definition set_obstacles (v : list Obstacle) (g : FlappyGame) : FlappyGame :=
  {| birdY := birdY g; birdVelocity := birdVelocity g; obstacles := v;
     score := score g; gameStarted := gameStarted g;
     gameOver := gameOver g; lastFlapTime := lastFlapTime g;
     currentRound := currentRound g; bestScore := bestScore g;
     animationId := animationId g; lastGameLoopTime := lastGameLoopTime g;
     faceDetector := faceDetector g;
     gameScreenActive := gameScreenActive g;
     ctaScreenActive := ctaScreenActive g;
     roundOverOverlayHidden := roundOverOverlayHidden g;
     effects := effects g |}.

Definition set_score (v : Z) (g : FlappyGame) : FlappyGame :=
  {| birdY := birdY g; birdVelocity := birdVelocity g;
     obstacles := obstacles g; score := v; gameStarted := gameStarted g;
     gameOver := gameOver g; lastFlapTime := lastFlapTime g;
     currentRound := currentRound g; bestScore := bestScore g;
     animationId := animationId g; lastGameLoopTime := lastGameLoopTime g;
     faceDetector := faceDetector g;
     gameScreenActive := gameScreenActive g;
     ctaScreenActive := ctaScreenActive g;
     roundOverOverlayHidden := roundOverOverlayHidden g;
     effects := effects g |}.

Definition set_gameStarted (v : bool) (g : FlappyGame) : FlappyGame :=
  {| birdY := birdY g; birdVelocity := birdVelocity g;
     obstacles := obstacles g; score := score g; gameStarted := v;
     gameOver := gameOver g; lastFlapTime := lastFlapTime g;
     currentRound := currentRound g; bestScore := bestScore g;
     animationId := animationId g; lastGameLoopTime := lastGameLoopTime g;
     faceDetector := faceDetector g;
     gameScreenActive := gameScreenActive g;
     ctaScreenActive := ctaScreenActive g;
     roundOverOverlayHidden := roundOverOverlayHidden g;
     effects := effects g |}.

Definition set_gameOver (v : bool) (g : FlappyGame) : FlappyGame :=
  {| birdY := birdY g; birdVelocity := birdVelocity g;
     obstacles := obstacles g; score := score g;
     gameStarted := gameStarted g; gameOver := v;
     lastFlapTime := lastFlapTime g; currentRound := currentRound g;
     bestScore := bestScore g; animationId := animationId g;
     lastGameLoopTime := lastGameLoopTime g;
     faceDetector := faceDetector g;
     gameScreenActive := gameScreenActive g;
     ctaScreenActive := ctaScreenActive g;
     roundOverOverlayHidden := roundOverOverlayHidden g;
     effects := effects g |}.

Definition set_lastFlapTime (v : Z) (g : FlappyGame) : FlappyGame :=
  {| birdY := birdY g; birdVelocity := birdVelocity g;
     obstacles := obstacles g; score := score g;
     gameStarted := gameStarted g; gameOver := gameOver g;
     lastFlapTime := v; currentRound := currentRound g;
     bestScore := bestScore g; animationId := animationId g;
     lastGameLoopTime := lastGameLoopTime g;
     faceDetector := faceDetector g;
     gameScreenActive := gameScreenActive g;
     ctaScreenActive := ctaScreenActive g;
     roundOverOverlayHidden := roundOverOverlayHidden g;
     effects := effects g |}.

Definition set_bestScore (v : Z) (g : FlappyGame) : FlappyGame :=
  {| birdY := birdY g; birdVelocity := birdVelocity g;
     obstacles := obstacles g; score := score g;
     gameStarted := gameStarted g; gameOver := gameOver g;
     lastFlapTime := lastFlapTime g; currentRound := currentRound g;
     bestScore := v; animationId := animationId g;
     lastGameLoopTime := lastGameLoopTime g;
     faceDetector := faceDetector g;
     gameScreenActive := gameScreenActive g;
     ctaScreenActive := ctaScreenActive g;
     roundOverOverlayHidden := roundOverOverlayHidden g;
     effects := effects g |}.

Definition set_animationId (v : bool) (g : FlappyGame) : FlappyGame :=
  {| birdY := birdY g; birdVelocity := birdVelocity g;
     obstacles := obstacles g; score := score g;
     gameStarted := gameStarted g; gameOver := gameOver g;
     lastFlapTime := lastFlapTime g; currentRound := currentRound g;
     bestScore := bestScore g; animationId := v;
     lastGameLoopTime := lastGameLoopTime g;
     faceDetector := faceDetector g;
     gameScreenActive := gameScreenActive g;
     ctaScreenActive := ctaScreenActive g;
     roundOverOverlayHidden := roundOverOverlayHidden g;
     effects := effects g |}.

Definition set_lastGameLoopTime (v : Q) (g : FlappyGame) : FlappyGame :=
  {| birdY := birdY g; birdVelocity := birdVelocity g;
     obstacles := obstacles g; score := score g;
     gameStarted := gameStarted g; gameOver := gameOver g;
     lastFlapTime := lastFlapTime g; currentRound := currentRound g;
     bestScore := bestScore g; animationId := animationId g;
     lastGameLoopTime := v; faceDetector := faceDetector g;
     gameScreenActive := gameScreenActive g;
     ctaScreenActive := ctaScreenActive g;
     roundOverOverlayHidden := roundOverOverlayHidden g;
     effects := effects g |}.

Definition set_gameScreenActive (v : bool) (g : FlappyGame) : FlappyGame :=
  {| birdY := birdY g; birdVelocity := birdVelocity g;
     obstacles := obstacles g; score := score g;
     gameStarted := gameStarted g; gameOver := gameOver g;
     lastFlapTime := lastFlapTime g; currentRound := currentRound g;
     bestScore := bestScore g; animationId := animationId g;
     lastGameLoopTime := lastGameLoopTime g;
     faceDetector := faceDetector g; gameScreenActive := v;
     ctaScreenActive := ctaScreenActive g;
     roundOverOverlayHidden := roundOverOverlayHidden g;
     effects := effects g |}.

Definition set_ctaScreenActive (v : bool) (g : FlappyGame) : FlappyGame :=
  {| birdY := birdY g; birdVelocity := birdVelocity g;
     obstacles := obstacles g; score := score g;
     gameStarted := gameStarted g; gameOver := gameOver g;
     lastFlapTime := lastFlapTime g; currentRound := currentRound g;
     bestScore := bestScore g; animationId := animationId g;
     lastGameLoopTime := lastGameLoopTime g;
     faceDetector := faceDetector g;
     gameScreenActive := gameScreenActive g; ctaScreenActive := v;
     roundOverOverlayHidden := roundOverOverlayHidden g;
     effects := effects g |}.

Definition set_roundOverOverlayHidden (v : bool) (g : FlappyGame) : FlappyGame :=
  {| birdY := birdY g; birdVelocity := birdVelocity g;
     obstacles := obstacles g; score := score g;
     gameStarted := gameStarted g; gameOver := gameOver g;
     lastFlapTime := lastFlapTime g; currentRound := currentRound g;
     bestScore := bestScore g; animationId := animationId g;
     lastGameLoopTime := lastGameLoopTime g;
     faceDetector := faceDetector g;
     gameScreenActive := gameScreenActive g;
     ctaScreenActive := ctaScreenActive g; roundOverOverlayHidden := v;
     effects := effects g |}.

Definition set_effects (v : list Effect) (g : FlappyGame) : FlappyGame :=
  {| birdY := birdY g; birdVelocity := birdVelocity g;
     obstacles := obstacles g; score := score g;
     gameStarted := gameStarted g; gameOver := gameOver g;
     lastFlapTime := lastFlapTime g; currentRound := currentRound g;
     bestScore := bestScore g; animationId := animationId g;
     lastGameLoopTime := lastGameLoopTime g;
     faceDetector := faceDetector g;
     gameScreenActive := gameScreenActive g;
     ctaScreenActive := ctaScreenActive g;
     roundOverOverlayHidden := roundOverOverlayHidden g; effects := v |}.

Definition emit (e : Effect) (g : FlappyGame) : FlappyGame :=
  set_effects (e :: effects g) g.

Definition beginGameplay (g : FlappyGame) : FlappyGame :=
  let g := set_birdY (SCREEN_HEIGHT / 2) g in
  let g := set_birdVelocity 0 g in
  let g := set_obstacles [] g in
  let g := set_score 0%Z g in
  let g := set_gameStarted true g in
  let g := set_gameOver false g in
  let g := emit RequestAnimationFrame g in
  let g := emit (PlaySound "bgm"%string) g in
  emit (LogEvent "game_start"%string) g.

(** [flap()], with [now] the value [Date.now()] returns. *)
Definition flap (now : Z) (g : FlappyGame) : FlappyGame :=
  if (now - lastFlapTime g <? MIN_FLAP_INTERVAL)%Z then g
  else if negb (gameStarted g) || gameOver g then g
  else
    let g := set_birdVelocity FLAP_STRENGTH g in
    let g := set_lastFlapTime now g in
    emit (PlaySound "jump"%string) g.

(** The closure [startGame] stores in [faceDetector.onSmileChange]. *)
Definition runSmileCallback (cb : SmileCallback) (smiling : bool) (now : Z)
    (g : FlappyGame) : FlappyGame :=
  match cb with
  | GameFlapCallback => if smiling then flap now g else g
  end.

(** [spawnObstacle()], with [rnd] the value of [Math.random()] and [now]
    that of [Date.now()]. *)
Definition spawnObstacle (rnd : Q) (now : Z) (g : FlappyGame) : FlappyGame :=
  let minGapTop := 80 in
  let maxGapTop := SCREEN_HEIGHT - GAP_SIZE - 80 in
  let gapTop := minGapTop + rnd * (maxGapTop - minGapTop) in
  let gapBottom := gapTop + GAP_SIZE in
  set_obstacles
    (obstacles g ++
       [{| x := SCREEN_WIDTH; gapTop := gapTop; gapBottom := gapBottom;
           passed := false; id := now |}]) g.

(** The bird's box shrunk by the forgiveness margin, as [checkCollision]
    computes it. *)
Definition forgiveness : Q := BIRD_SIZE * 0.1.
Definition safeTop (g : FlappyGame) : Q :=
  let birdTop := birdY g - BIRD_SIZE / 2 in birdTop + forgiveness.
Definition safeBottom (g : FlappyGame) : Q :=
  let birdBottom := birdY g + BIRD_SIZE / 2 in birdBottom - forgiveness.
Definition safeLeft : Q :=
  let birdLeft := BIRD_X - BIRD_SIZE / 2 in birdLeft + forgiveness.
Definition safeRight : Q :=
  let birdRight := BIRD_X + BIRD_SIZE / 2 in birdRight - forgiveness.

(** The test of the screen-bounds branch. *)
Definition outOfScreen (g : FlappyGame) : bool :=
  Qltb (safeTop g) 0 || Qgtb (safeBottom g) SCREEN_HEIGHT.

(** The test of the obstacle loop's body. *)
Definition hitsObstacle (g : FlappyGame) (obs : Obstacle) : bool :=
  let tubeLeft := x obs in
  let tubeRight := x obs + OBSTACLE_WIDTH in
  Qgtb safeRight tubeLeft && Qltb safeLeft tubeRight &&
  (Qltb (safeTop g) (gapTop obs) || Qgtb (safeBottom g) (gapBottom obs)).

Definition checkCollision (g : FlappyGame) : bool :=
  (* Check screen bounds *)
  if outOfScreen g then true
  else
    (* Check obstacle collisions *)
    existsb (hitsObstacle g) (obstacles g).

(** Bird physics: gravity, terminal velocity, integration. *)
Definition birdPhysics (g : FlappyGame) : FlappyGame :=
  let g := set_birdVelocity (birdVelocity g + GRAVITY) g in
  let g := if Qgtb (birdVelocity g) 10 then set_birdVelocity 10 g else g in
  set_birdY (birdY g + birdVelocity g) g.

(** Clamp bird position. *)
Definition clampBird (g : FlappyGame) : FlappyGame :=
  let birdRadius := BIRD_SIZE / 2 in
  let g :=
    if Qltb (birdY g) birdRadius
    then set_birdVelocity 0 (set_birdY birdRadius g)
    else g in
  if Qgtb (birdY g) (SCREEN_HEIGHT - birdRadius)
  then set_gameOver true (set_birdY (SCREEN_HEIGHT - birdRadius) g)
  else g.

(** Spawn obstacles. *)
Definition spawnStep (rnd : Q) (now : Z) (g : FlappyGame) : FlappyGame :=
  match rev (obstacles g) with
  | [] => spawnObstacle rnd now g
  | lastObstacle :: _ =>
      if Qgtb (SCREEN_WIDTH - x lastObstacle) SPAWN_DISTANCE
      then spawnObstacle rnd now g
      else g
  end.

(** The body of the obstacle loop for one obstacle: the moved obstacle
    ([None] when it is spliced out) and the new score. *)
Definition stepObstacle (obs : Obstacle) (score : Z) : option Obstacle * Z :=
  let obs :=
    {| x := x obs - OBSTACLE_SPEED; gapTop := gapTop obs;
       gapBottom := gapBottom obs; passed := passed obs; id := id obs |} in
  let '(obs, score) :=
    if negb (passed obs) && Qltb (x obs + OBSTACLE_WIDTH) BIRD_X
    then ({| x := x obs; gapTop := gapTop obs; gapBottom := gapBottom obs;
             passed := true; id := id obs |}, (score + 10)%Z)
    else (obs, score) in
  if Qltb (x obs + OBSTACLE_WIDTH) 0 then (None, score) else (Some obs, score).

(** The loop runs from the last index down to 0, so the tail of the list
    is handled before its head. *)
Fixpoint stepObstacles (l : list Obstacle) (score : Z) : list Obstacle * Z :=
  match l with
  | [] => ([], score)
  | obs :: rest =>
      let '(rest', score) := stepObstacles rest score in
      let '(o, score) := stepObstacle obs score in
      (match o with Some obs' => obs' :: rest' | None => rest' end, score)
  end.

(** Update obstacles. *)
Definition moveObstacles (g : FlappyGame) : FlappyGame :=
  let '(l, sc) := stepObstacles (obstacles g) (score g) in
  set_score sc (set_obstacles l g).

(** [update()] up to the point where it calls [checkCollision()]. *)
Definition updateWorld (rnd : Q) (now : Z) (g : FlappyGame) : FlappyGame :=
  moveObstacles (spawnStep rnd now (clampBird (birdPhysics g))).

Definition update (rnd : Q) (now : Z) (g : FlappyGame) : FlappyGame :=
  let g := updateWorld rnd now g in
  (* Check collisions *)
  if checkCollision g then set_gameOver true g else g.

Definition showCTAScreen (g : FlappyGame) : FlappyGame :=
  let g := if animationId g then emit CancelAnimationFrame g else g in
  let g := if faceDetector g then emit StopFaceDetector g else g in
  let g := set_gameScreenActive false g in
  let g := set_ctaScreenActive true g in
  emit (LogEvent "cta_view"%string) g.

Definition handleGameOver (g : FlappyGame) : FlappyGame :=
  let g := set_gameStarted false g in
  let g := emit StopBGM g in
  let g := emit (LogEvent "round_complete"%string) g in
  (* Update best score *)
  let g := if (score g >? bestScore g)%Z then set_bestScore (score g) g else g in
  (* Check if more rounds available *)
  if (currentRound g <? maxRounds)%Z
  then set_roundOverOverlayHidden false g
  else showCTAScreen g.

(** One animation frame at time [currentTime]. *)
Definition gameLoop (currentTime : Q) (rnd : Q) (now : Z) (g : FlappyGame)
  : FlappyGame :=
  if negb (gameStarted g) then g
  else
    let elapsed := currentTime - lastGameLoopTime g in
    let GAME_FRAME_INTERVAL := 1000 / 30 in
    if Qltb elapsed GAME_FRAME_INTERVAL
    then set_animationId true (emit RequestAnimationFrame g)
    else
      let g := set_lastGameLoopTime currentTime g in
      let g := update rnd now g in
      if gameOver g then handleGameOver g
      else set_animationId true (emit RequestAnimationFrame g).

(** What can happen to a running game: a physics tick or a flap request. *)
Inductive Action : Type :=
| Tick (rnd : Q) (now : Z)
| Flap (now : Z).

Definition act (a : Action) (g : FlappyGame) : FlappyGame :=
  match a with
  | Tick rnd now => update rnd now g
  | Flap now => flap now g
  end.

Definition play (acts : list Action) (g : FlappyGame) : FlappyGame :=
  fold_left (fun g a => act a g) acts g.

End Game.

(** ** Reference definitions and concrete inputs *)

(** The arithmetic mean of a list of scores. *)
Definition arithmeticMean (l : list Q) : Q :=
  fold_right Qplus 0 l / inject_Z (Z.of_nat (length l)).

Import FaceDetection.

(** What one call of [detectSmile] does to the gesture state, by the
    three ways through its hysteresis block. *)
Inductive HysteresisStep (d : FaceDetector) (r : FaceDetector * option bool)
  : Prop :=
| Rising :
    isSmiling d = false -> triggerThreshold < smileScore (fst r) ->
    isSmiling (fst r) = true ->
    snd r = option_map (fun _ => true) (onSmileChange d) ->
    HysteresisStep d r
| Falling :
    isSmiling d = true -> smileScore (fst r) < resetThreshold ->
    isSmiling (fst r) = false ->
    snd r = option_map (fun _ => false) (onSmileChange d) ->
    HysteresisStep d r
| Steady :
    isSmiling (fst r) = isSmiling d -> snd r = None ->
    (if isSmiling d
     then resetThreshold <= smileScore (fst r)
     else smileScore (fst r) <= triggerThreshold) ->
    HysteresisStep d r.

(** The gate of a flap request: the game is running and at least
    [MIN_FLAP_INTERVAL] ms have passed since [lastFlapTime]. *)
Definition flapAccepted (now : Z) (g : Game.FlappyGame) : bool :=
  Game.gameStarted g && negb (Game.gameOver g) &&
  (Game.MIN_FLAP_INTERVAL <=? now - Game.lastFlapTime g)%Z.

Definition isTick (a : Game.Action) : bool :=
  match a with
  | Game.Tick _ _ => true
  | Game.Flap _ => false
  end.

Module Examples.

Import FaceDetection Game.

(** A detector wired to the game, as [startGame] leaves it. *)
Definition wiredDetector : FaceDetector :=
  set_onSmileChange (Some GameFlapCallback) newFaceDetector.

(** The wired detector after five frames with a full smile. *)
Definition smilingDetector : FaceDetector :=
  detectAll [1; 1; 1; 1; 1] wiredDetector.

(** A frame with a face whose only blendshape is the jaw. *)
Definition jawOnlyFrame : Results :=
  {| faceBlendshapes :=
       Some [{| categories :=
                  [{| categoryName := "jawOpen"%string;
                      FaceDetection.score := 0.5 |}] |}] |}.

(** The wired detector after a full smile and a neutral frame: Active,
    with a smoothed score of one half. *)
Definition halfSmilingDetector : FaceDetector :=
  detectAll [1; 0] wiredDetector.

Definition scenarioScores : list Q :=
  [0; 0; 0; 0; 0; 0.9; 0.9; 0.9; 0.9; 0.9].

Definition scenarioScores64 : list float :=
  [0; 0; 0; 0; 0; 0.9; 0.9; 0.9; 0.9; 0.9]%float.

Definition wiredDetector64 : Binary64.FaceDetector64 :=
  Binary64.set_onSmileChange64 (Some GameFlapCallback)
    Binary64.newFaceDetector64.

(** A game in its first round right after the countdown: constructor
    values, the page as [startGame] leaves it, then [beginGameplay]. *)
Definition runningGame : FlappyGame :=
  beginGameplay
    {| birdY := SCREEN_HEIGHT / 2; birdVelocity := 0; obstacles := [];
       score := 0; gameStarted := false; gameOver := false;
       lastFlapTime := 0; currentRound := 1; bestScore := 0;
       animationId := false; lastGameLoopTime := 0; faceDetector := true;
       gameScreenActive := true; ctaScreenActive := false;
       roundOverOverlayHidden := true; effects := [] |}.

(** The game as the constructor and [startGame] leave it, before the
    countdown ends. *)
Definition constructedGame : FlappyGame :=
  {| birdY := SCREEN_HEIGHT / 2; birdVelocity := 0; obstacles := [];
     score := 0; gameStarted := false; gameOver := false;
     lastFlapTime := 0; currentRound := 1; bestScore := 0;
     animationId := false; lastGameLoopTime := 0; faceDetector := true;
     gameScreenActive := true; ctaScreenActive := false;
     roundOverOverlayHidden := true; effects := [] |}.

(** The same game a few units above the floor, falling at terminal
    velocity, with 30 points scored. *)
Definition fallingGame : FlappyGame :=
  set_score 30 (set_birdVelocity 10 (set_birdY 445 runningGame)).

(** The same game close to the ceiling, right after a flap. *)
Definition risingGame : FlappyGame :=
  set_birdVelocity FLAP_STRENGTH (set_birdY 33 runningGame).

(** A game whose third round has just ended with 20 points, the best
    earlier round having scored 50. *)
Definition finalRoundOverGame : FlappyGame :=
  {| birdY := SCREEN_HEIGHT - BIRD_SIZE / 2; birdVelocity := 10;
     obstacles := []; score := 20; gameStarted := true; gameOver := true;
     lastFlapTime := 1700000000000; currentRound := 3; bestScore := 50;
     animationId := true; lastGameLoopTime := 5000; faceDetector := true;
     gameScreenActive := true; ctaScreenActive := false;
     roundOverOverlayHidden := true; effects := [] |}.

End Examples.

(** ** The detector driving the game *)

Module System.

Import FaceDetection Game.

(** One call of [detectSmile] made while the game is listening: the
    handler runs inside the call, on the game as it is then; [now] is the
    clock the handler's [flap] reads. *)
Definition smileSample (x : Q) (now : Z) (s : FaceDetector * FlappyGame)
  : FaceDetector * FlappyGame :=
  let '(d, g) := s in
  let '(d', call) := detectSmile x d in
  (d', match call, onSmileChange d with
       | Some smiling, Some cb => runSmileCallback cb smiling now g
       | _, _ => g
       end).

Definition smileSamples (samples : list (Q * Z)) (s : FaceDetector * FlappyGame)
  : FaceDetector * FlappyGame :=
  fold_left (fun s sample => smileSample (fst sample) (snd sample) s) samples s.

End System.

(** ** Rounds, the countdown and quitting *)

Module Page.

Import Game.

(** The assignment [this.currentRound = v]. *)
Definition set_currentRound (v : Z) (g : FlappyGame) : FlappyGame :=
  {| birdY := birdY g; birdVelocity := birdVelocity g;
     obstacles := obstacles g; score := score g;
     gameStarted := gameStarted g; gameOver := gameOver g;
     lastFlapTime := lastFlapTime g; currentRound := v;
     bestScore := bestScore g; animationId := animationId g;
     lastGameLoopTime := lastGameLoopTime g; faceDetector := faceDetector g;
     gameScreenActive := gameScreenActive g;
     ctaScreenActive := ctaScreenActive g;
     roundOverOverlayHidden := roundOverOverlayHidden g;
     effects := effects g |}.

(** A live timer made by [setInterval] in [startCountdown]: its id and the
    [count] variable its callback closes over. *)
Record Interval : Type := mkInterval {
  intervalId : positive;
  count : Z
}.

(** The game together with the countdown machinery of [src/game.js]: the
    [hidden] class of the countdown overlay, the field
    [this.countdownInterval] (unset, or the id last returned by
    [setInterval]), the timers that are live, and the id the next
    [setInterval] will return (ids are positive integers). *)
Record GamePage : Type := mkGamePage {
  game : FlappyGame;
  countdownOverlayHidden : bool;
  countdownInterval : option positive;
  intervals : list Interval;
  nextIntervalId : positive
}.

(** [clearInterval(id)]: an unset or dead id clears nothing. *)
Definition clearInterval (id : option positive) (l : list Interval) : list Interval :=
  match id with
  | None => l
  | Some i => filter (fun t => negb (intervalId t =? i)%positive) l
  end.

Definition startCountdown (p : GamePage) : GamePage :=
  let id := nextIntervalId p in
  {| game := game p;
     countdownOverlayHidden := false;
     countdownInterval := Some id;
     intervals := intervals p ++ [{| intervalId := id; count := 3 |}];
     nextIntervalId := Pos.succ id |}.

(** One run of the callback of timer [id]; a timer that is not live runs
    nothing. *)
Definition intervalFires (id : positive) (p : GamePage) : GamePage :=
  match find (fun t => (intervalId t =? id)%positive) (intervals p) with
  | None => p
  | Some t =>
      let c := (count t - 1)%Z in
      let timers :=
        map (fun t' => if (intervalId t' =? id)%positive
                       then {| intervalId := id; count := c |} else t')
            (intervals p) in
      if (c >? 0)%Z
      then {| game := game p;
              countdownOverlayHidden := countdownOverlayHidden p;
              countdownInterval := countdownInterval p;
              intervals := timers;
              nextIntervalId := nextIntervalId p |}
      else {| game := (* Only start if not quit *)
                      if negb (gameOver (game p)) then beginGameplay (game p)
                      else game p;
              countdownOverlayHidden := true;
              countdownInterval := countdownInterval p;
              intervals := clearInterval (countdownInterval p) timers;
              nextIntervalId := nextIntervalId p |}
  end.

Definition quitGame (p : GamePage) : GamePage :=
  let g := game p in
  let g := set_gameStarted false g in
  let g := set_gameOver true g in
  let g := if animationId g
           then set_animationId false (emit CancelAnimationFrame g) else g in
  let timers := match countdownInterval p with
                | Some id => clearInterval (Some id) (intervals p)
                | None => intervals p
                end in
  (* Hide game, show CTA *)
  let g := set_gameScreenActive false g in
  let g := showCTAScreen g in
  let g := emit StopBGM g in
  let g := emit (LogEvent "game_quit"%string) g in
  {| game := g;
     countdownOverlayHidden := countdownOverlayHidden p;
     countdownInterval := countdownInterval p;
     intervals := timers;
     nextIntervalId := nextIntervalId p |}.

Definition startNextRound (p : GamePage) : GamePage :=
  let g := game p in
  (* Hide the overlay *)
  let g := set_roundOverOverlayHidden true g in
  (* Reset game state for new round *)
  let g := set_gameOver false g in
  let g := set_gameStarted false g in
  let g := set_score 0%Z g in
  let g := set_obstacles [] g in
  let g := set_birdY (SCREEN_HEIGHT / 2) g in
  let g := set_birdVelocity 0 g in
  (* Cancel any existing animation frame *)
  let g := if animationId g
           then set_animationId false (emit CancelAnimationFrame g) else g in
  let g := set_currentRound (currentRound g + 1)%Z g in
  (* Start countdown for new round *)
  startCountdown
    {| game := g;
       countdownOverlayHidden := countdownOverlayHidden p;
       countdownInterval := countdownInterval p;
       intervals := intervals p;
       nextIntervalId := nextIntervalId p |}.

(** A method of the game run on the page it belongs to. *)
Definition onGame (f : FlappyGame -> FlappyGame) (p : GamePage) : GamePage :=
  {| game := f (game p);
     countdownOverlayHidden := countdownOverlayHidden p;
     countdownInterval := countdownInterval p;
     intervals := intervals p;
     nextIntervalId := nextIntervalId p |}.

(** What the browser can deliver to the page.  Frames and timer callbacks
    are offered at any moment; the methods themselves decide whether
    anything happens. *)
Inductive PageEvent : Type :=
| AnimationFrame (currentTime : Q) (rnd : Q) (now : Z)
| SmileFlap (now : Z)
| TimerFires (id : positive)
| NextRoundClick
| QuitClick.

Definition pageStep (e : PageEvent) (p : GamePage) : GamePage :=
  match e with
  | AnimationFrame currentTime rnd now => onGame (gameLoop currentTime rnd now) p
  | SmileFlap now => onGame (flap now) p
  | TimerFires id => intervalFires id p
  | NextRoundClick => startNextRound p
  | QuitClick => quitGame p
  end.

Definition pageRun (es : list PageEvent) (p : GamePage) : GamePage :=
  fold_left (fun p e => pageStep e p) es p.

End Page.

(** ** Reference predicates for the obstacle field *)

(** Every obstacle is more than [SPAWN_DISTANCE] to the left of each one
    after it in the list. *)
Fixpoint spaced (l : list Game.Obstacle) : Prop :=
  match l with
  | [] => True
  | o :: rest =>
      Forall (fun o' => Game.x o + Game.SPAWN_DISTANCE < Game.x o') rest
      /\ spaced rest
  end.

(** The trailing edge of the obstacle is left of the bird's position. *)
Definition behindBird (o : Game.Obstacle) : Prop :=
  Game.x o + Game.OBSTACLE_WIDTH < Game.BIRD_X.

(** The obstacles a tick scores: not yet passed, and behind the bird once
    moved. *)
Definition newlyPassed (o : Game.Obstacle) : bool :=
  negb (Game.passed o)
  && Qltb (Game.x o - Game.OBSTACLE_SPEED + Game.OBSTACLE_WIDTH) Game.BIRD_X.

(** What the obstacle loop makes of one obstacle that it keeps. *)
Definition movedObstacle (o : Game.Obstacle) : Game.Obstacle :=
  {| Game.x := Game.x o - Game.OBSTACLE_SPEED;
     Game.gapTop := Game.gapTop o;
     Game.gapBottom := Game.gapBottom o;
     Game.passed := Game.passed o || newlyPassed o;
     Game.id := Game.id o |}.

(** The obstacle has left the screen on the trailing side. *)
Definition offScreen (o : Game.Obstacle) : bool :=
  Qltb (Game.x o + Game.OBSTACLE_WIDTH) 0.

(** The pipe's horizontal span meets that of the bird's shrunk box. *)
Definition overlapsBird (o : Game.Obstacle) : bool :=
  Qgtb Game.safeRight (Game.x o)
  && Qltb Game.safeLeft (Game.x o + Game.OBSTACLE_WIDTH).

(** The obstacle [spawnObstacle] appends. *)
Definition spawned (rnd : Q) (now : Z) : Game.Obstacle :=
  {| Game.x := Game.SCREEN_WIDTH;
     Game.gapTop := 80 + rnd * (Game.SCREEN_HEIGHT - Game.GAP_SIZE - 80 - 80);
     Game.gapBottom :=
       80 + rnd * (Game.SCREEN_HEIGHT - Game.GAP_SIZE - 80 - 80)
       + Game.GAP_SIZE;
     Game.passed := false;
     Game.id := now |}.

(** What holds of the obstacle list between ticks: the spacing, the
    horizontal range, and [passed] set exactly on the obstacles behind the
    bird. *)
Definition fieldOrdered (hi : Q) (l : list Game.Obstacle) : Prop :=
  spaced l /\
  Forall (fun o => - Game.OBSTACLE_WIDTH <= Game.x o <= hi) l /\
  Forall (fun o => Game.passed o = true <-> behindBird o) l.



Module PageExamples.

Import Game Examples.

(** A page whose game has just shown the round-over overlay of round 1;
    the countdown of that round is over and no timer is live. *)
Definition roundOverPage : Page.GamePage :=
  {| Page.game := handleGameOver (update (1 # 2) 1700000000000 fallingGame);
     Page.countdownOverlayHidden := true;
     Page.countdownInterval := Some 1%positive;
     Page.intervals := [];
     Page.nextIntervalId := 2%positive |}.

(** A page whose game waits for its first countdown. *)
Definition readyPage : Page.GamePage :=
  {| Page.game := constructedGame;
     Page.countdownOverlayHidden := true;
     Page.countdownInterval := None;
     Page.intervals := [];
     Page.nextIntervalId := 1%positive |}.

End PageExamples.

(** The events that are not a click on the next-round button. *)
Definition keepsRound (e : Page.PageEvent) : bool :=
  match e with
  | Page.NextRoundClick => false
  | _ => true
  end.

(** How many clicks on the next-round button a run holds. *)
Definition nextRoundClicks (es : list Page.PageEvent) : Z :=
  Z.of_nat (length (filter (fun e => negb (keepsRound e)) es)).


(** A frame with a face whose blendshape array carries neither smile
    category. *)
Definition lacksSmile (results : FaceDetection.Results) : Prop :=
  match FaceDetection.faceBlendshapes results with
  | Some (face :: _) =>
      Forall (fun b => FaceDetection.categoryName b <> "mouthSmileLeft"%string
                       /\ FaceDetection.categoryName b <> "mouthSmileRight"%string)
             (FaceDetection.categories face)
  | _ => False
  end.

(** ** Facts about comparisons and lists *)

Lemma Qltb_lt (a b : Q) : Qltb a b = true <-> a < b.
Proof.
  unfold Qltb. rewrite Qlt_alt.
  destruct (a ?= b); intuition congruence.
Qed.

Lemma Qltb_ge (a b : Q) : Qltb a b = false <-> b <= a.
Proof.
  split; intro H.
  - apply Qnot_lt_le. intro L. apply Qltb_lt in L. congruence.
  - destruct (Qltb a b) eqn:E; [|reflexivity].
    apply Qltb_lt in E. exfalso. exact (Qlt_not_le _ _ E H).
Qed.

Lemma Qgtb_gt (a b : Q) : Qgtb a b = true <-> b < a.
Proof. apply Qltb_lt. Qed.

Lemma Qgtb_le (a b : Q) : Qgtb a b = false <-> a <= b.
Proof. apply Qltb_ge. Qed.

Lemma lastN_length {A : Type} (n : nat) (l : list A) :
  length (lastN n l) = Nat.min (length l) n.
Proof. unfold lastN. rewrite length_skipn. lia. Qed.

Lemma lastN_all {A : Type} (n : nat) (l : list A) :
  (length l <= n)%nat -> lastN n l = l.
Proof.
  intro H. unfold lastN.
  replace (length l - n)%nat with 0%nat by lia. reflexivity.
Qed.

(** Trimming before appending does not change what survives a later trim. *)
Lemma lastN_app_trim {A : Type} (n : nat) (l more : list A) :
  lastN n (lastN n l ++ more) = lastN n (l ++ more).
Proof.
  destruct (Nat.le_gt_cases (length l) n) as [Hle | Hgt].
  - now rewrite (lastN_all n l Hle).
  - unfold lastN at 1 3.
    rewrite !length_app, lastN_length.
    replace (Nat.min (length l) n + length more - n)%nat
      with (length more) by lia.
    replace (length l + length more - n)%nat
      with (length more + (length l - n))%nat by lia.
    rewrite <- skipn_skipn. f_equal.
    unfold lastN. rewrite skipn_app.
    replace (length l - n - length l)%nat with 0%nat by lia.
    reflexivity.
Qed.

Lemma fold_left_Qplus (l : list Q) (a : Q) :
  fold_left Qplus l a == a + fold_right Qplus 0 l.
Proof.
  revert a. induction l as [| y l IH]; intro a; simpl.
  - ring.
  - rewrite IH. ring.
Qed.

(** ** Facts about the detector *)

Module DetectorFacts.

Import FaceDetection Examples.

Lemma pushScore_lastN (buf : list Q) (x : Q) :
  (length buf <= bufferSize)%nat ->
  pushScore buf x = lastN bufferSize (buf ++ [x]).
Proof.
  intro H. unfold pushScore, lastN.
  rewrite length_app. simpl length.
  destruct (Nat.ltb_spec bufferSize (length buf + 1)) as [Hfull | Hroom].
  - replace (length buf + 1 - bufferSize)%nat with 1%nat by lia.
    reflexivity.
  - replace (length buf + 1 - bufferSize)%nat with 0%nat by lia.
    reflexivity.
Qed.

Lemma sumBuffer_mean (buf : list Q) :
  sumBuffer buf / inject_Z (Z.of_nat (length buf)) == arithmeticMean buf.
Proof.
  unfold sumBuffer, arithmeticMean.
  rewrite fold_left_Qplus. now rewrite Qplus_0_l.
Qed.

Lemma detectSmile_buffer (x : Q) (d : FaceDetector) :
  smileBuffer (fst (detectSmile x d)) = pushScore (smileBuffer d) x.
Proof. reflexivity. Qed.

Lemma detectSmile_score (x : Q) (d : FaceDetector) :
  smileScore (fst (detectSmile x d))
  = sumBuffer (smileBuffer (fst (detectSmile x d)))
    / inject_Z (Z.of_nat (length (smileBuffer (fst (detectSmile x d))))).
Proof. reflexivity. Qed.

Lemma detectAll_snoc (xs : list Q) (x : Q) (d : FaceDetector) :
  detectAll (xs ++ [x]) d = fst (detectSmile x (detectAll xs d)).
Proof. unfold detectAll. now rewrite fold_left_app. Qed.

(** The buffer is the trimmed concatenation of what it held and what was
    ingested since. *)
Lemma detectAll_buffer (xs : list Q) (d : FaceDetector) :
  (length (smileBuffer d) <= bufferSize)%nat ->
  smileBuffer (detectAll xs d) = lastN bufferSize (smileBuffer d ++ xs).
Proof.
  revert d. induction xs as [| x xs IH]; intros d Hd.
  - simpl. rewrite app_nil_r. symmetry. now apply lastN_all.
  - change (detectAll (x :: xs) d) with (detectAll xs (fst (detectSmile x d))).
    rewrite IH.
    + rewrite detectSmile_buffer, pushScore_lastN by exact Hd.
      rewrite lastN_app_trim, <- app_assoc. reflexivity.
    + rewrite detectSmile_buffer, pushScore_lastN by exact Hd.
      rewrite lastN_length. apply Nat.le_min_r.
Qed.

(** C3: for every sequence of ingested composite scores, after each ingest
    (here: after the last sample [x] of any non-empty sequence [xs ++ [x]]
    fed to a fresh detector) the smoothing buffer holds at most 5 entries,
    namely the last min(n,5) ingested values in order, and the smoothed
    score is the arithmetic mean of exactly those values. *)
Theorem C3_buffer_is_last_five_and_score_is_mean
    (cb : option SmileCallback) (xs : list Q) (x : Q) :
  let ingested := xs ++ [x] in
  let d := detectAll ingested (set_onSmileChange cb newFaceDetector) in
  (length (smileBuffer d) <= 5)%nat /\
  length (smileBuffer d) = Nat.min (length ingested) 5 /\
  smileBuffer d = lastN (Nat.min (length ingested) 5) ingested /\
  smileScore d = sumBuffer (smileBuffer d)
                 / inject_Z (Z.of_nat (length (smileBuffer d))) /\
  smileScore d == arithmeticMean (lastN (Nat.min (length ingested) 5) ingested).
Proof.
  intros ingested d.
  assert (Hbuf : smileBuffer d = lastN 5 ingested).
  { unfold d. rewrite detectAll_buffer by (simpl; lia). reflexivity. }
  assert (Hmin : lastN (Nat.min (length ingested) 5) ingested = lastN 5 ingested).
  { destruct (Nat.le_gt_cases (length ingested) 5) as [Hle | Hgt].
    - rewrite Nat.min_l by exact Hle. now rewrite !lastN_all by lia.
    - rewrite Nat.min_r by lia. reflexivity. }
  assert (Hscore : smileScore d
                   = sumBuffer (smileBuffer d)
                     / inject_Z (Z.of_nat (length (smileBuffer d)))).
  { unfold d, ingested. rewrite detectAll_snoc. apply detectSmile_score. }
  repeat split.
  - rewrite Hbuf, lastN_length. apply Nat.le_min_r.
  - rewrite Hbuf. apply lastN_length.
  - now rewrite Hmin.
  - exact Hscore.
  - rewrite Hscore, Hmin, Hbuf. apply sumBuffer_mean.
Qed.

(** *** Frames without a face *)

Lemma processResults_no_face (f : Results) (d : FaceDetector) :
  hasFace f = false ->
  processResults f d
  = ({| smileScore := 0; isSmiling := isSmiling d;
        smileBuffer := smileBuffer d; onSmileChange := onSmileChange d |},
     None).
Proof.
  unfold hasFace, processResults.
  destruct (faceBlendshapes f) as [[| face rest] |]; intro H;
    [reflexivity | discriminate | reflexivity].
Qed.

Lemma processResults_face (face : Classifications)
    (others : list Classifications) (d : FaceDetector) :
  processResults {| faceBlendshapes := Some (face :: others) |} d
  = detectSmile
      ((getBlendshapeScore (categories face) "mouthSmileLeft"
        + getBlendshapeScore (categories face) "mouthSmileRight") / 2) d.
Proof. reflexivity. Qed.

Lemma processAll_no_face (frames : list Results) (d : FaceDetector) :
  Forall (fun f => hasFace f = false) frames ->
  isSmiling (processAll frames d) = isSmiling d /\
  smileBuffer (processAll frames d) = smileBuffer d /\
  onSmileChange (processAll frames d) = onSmileChange d.
Proof.
  intro H. revert d.
  induction H as [| f frames Hf _ IH]; intro d.
  - repeat split.
  - change (processAll (f :: frames) d)
      with (processAll frames (fst (processResults f d))).
    rewrite (processResults_no_face f d Hf).
    destruct (IH (fst ({| smileScore := 0; isSmiling := isSmiling d;
                          smileBuffer := smileBuffer d;
                          onSmileChange := onSmileChange d |},
                       @None bool))) as (A & B & C).
    repeat split; assumption.
Qed.

Lemma processTrace_no_face (frames : list Results) (d : FaceDetector) :
  Forall (fun f => hasFace f = false) frames ->
  Forall (fun r => snd r = None /\ smileScore (fst r) = 0)
         (processTrace frames d).
Proof.
  intro H. revert d.
  induction H as [| f frames Hf _ IH]; intro d; simpl.
  - constructor.
  - constructor.
    + rewrite (processResults_no_face f d Hf). split; reflexivity.
    + apply IH.
Qed.

Lemma no_face_repeat (n : nat) :
  Forall (fun f => hasFace f = false) (repeat noFace n).
Proof. induction n; simpl; constructor; [reflexivity | assumption]. Qed.

(** C1, as stated, fails: on a detector that is Active with a full buffer
    of 1s, a frame without a face does not push 0 into the buffer (the
    buffer differs from the one [detectSmile 0] leaves), and no number
    of such frames ever brings the state back to Idle. *)
Lemma C1_no_face_is_not_ingested :
  isSmiling smilingDetector = true /\
  smileBuffer (fst (processResults noFace smilingDetector)) = [1; 1; 1; 1; 1] /\
  smileBuffer (fst (detectSmile 0 smilingDetector)) = [1; 1; 1; 1; 0] /\
  ~ (exists n : nat,
       isSmiling (processAll (repeat noFace n) smilingDetector) = false).
Proof.
  repeat split.
  intros [n Hn].
  destruct (processAll_no_face (repeat noFace n) smilingDetector
              (no_face_repeat n)) as (A & _).
  rewrite A in Hn. discriminate Hn.
Qed.

(** C1, amended: a frame without a face (absent or empty
    [faceBlendshapes]) only sets the displayed score to 0; nothing is
    pushed into the buffer, the hysteresis is not evaluated and no
    callback is made, so after any run of such frames the buffer and the
    gesture state are what they were before it.  A frame with a face
    feeds [(left + right) / 2] to [detectSmile]. *)
Theorem C1_no_face_freezes_detector (frames : list Results) (d : FaceDetector) :
  Forall (fun f => hasFace f = false) frames ->
  smileBuffer (processAll frames d) = smileBuffer d /\
  isSmiling (processAll frames d) = isSmiling d /\
  Forall (fun r => snd r = None /\ smileScore (fst r) = 0)
         (processTrace frames d) /\
  (forall face others d0,
      processResults {| faceBlendshapes := Some (face :: others) |} d0
      = detectSmile
          ((getBlendshapeScore (categories face) "mouthSmileLeft"
            + getBlendshapeScore (categories face) "mouthSmileRight") / 2)
          d0).
Proof.
  intro H.
  destruct (processAll_no_face frames d H) as (A & B & _).
  split; [exact B |]. split; [exact A |].
  split; [now apply processTrace_no_face |].
  intros. apply processResults_face.
Qed.

Lemma C1_no_face_freezes_detector_witness :
  smileBuffer (processAll [noFace; noBlendshapes] smilingDetector)
  = [1; 1; 1; 1; 1] /\
  isSmiling (processAll [noFace; noBlendshapes] smilingDetector) = true.
Proof.
  assert (H : Forall (fun f => hasFace f = false) [noFace; noBlendshapes]).
  { repeat constructor. }
  destruct (C1_no_face_freezes_detector [noFace; noBlendshapes]
              smilingDetector H) as (A & B & _).
  split; [exact A | exact B].
Defined.

(** *** Hysteresis *)

Lemma detectSmile_step (x : Q) (d : FaceDetector) :
  HysteresisStep d (detectSmile x d).
Proof.
  unfold detectSmile.
  set (buf := pushScore (smileBuffer d) x).
  set (smoothed := sumBuffer buf / inject_Z (Z.of_nat (length buf))).
  destruct (isSmiling d) eqn:Hs; cbn [negb].
  - destruct (Qltb smoothed resetThreshold) eqn:Hc.
    + apply Falling; cbn [fst snd smileScore isSmiling];
        [exact Hs | now apply Qltb_lt | reflexivity
        | now destruct (onSmileChange d)].
    + apply Steady; cbn [fst snd smileScore isSmiling];
        [now rewrite Hs | reflexivity | rewrite Hs; now apply Qltb_ge].
  - destruct (Qgtb smoothed triggerThreshold) eqn:Hc.
    + apply Rising; cbn [fst snd smileScore isSmiling];
        [exact Hs | now apply Qgtb_gt | reflexivity
        | now destruct (onSmileChange d)].
    + apply Steady; cbn [fst snd smileScore isSmiling];
        [now rewrite Hs | reflexivity | rewrite Hs; now apply Qgtb_le].
Qed.

Lemma onSmileChange_kept (x : Q) (d : FaceDetector) :
  onSmileChange (fst (detectSmile x d)) = onSmileChange d.
Proof. reflexivity. Qed.

(** C2, as stated, fails: with the game's handler installed, the samples
    1, 0, 0 make the detector go Active and then back to Idle, and the
    callback is invoked on the way back as well, with argument [false]. *)
Lemma C2_callback_fires_on_reset :
  map snd (detectTrace [1; 0; 0] wiredDetector) = [Some true; None; Some false] /\
  map (fun r => isSmiling (fst r)) (detectTrace [1; 0; 0] wiredDetector)
  = [true; true; false].
Proof. split; reflexivity. Qed.

(** C2, amended: [onSmileChange], when set, is invoked on every change of
    the gesture state and on no other call of [detectSmile], with the new
    state as its argument: [true] on Idle->Active, [false] on
    Active->Idle.  The handler the game installs requests a flap only for
    the argument [true] and leaves the game untouched for [false]. *)
Theorem C2_callback_on_every_state_change
    (x : Q) (d : FaceDetector) (cb : SmileCallback) :
  let r := detectSmile x (set_onSmileChange (Some cb) d) in
  (snd r = Some true <-> isSmiling d = false /\ isSmiling (fst r) = true) /\
  (snd r = Some false <-> isSmiling d = true /\ isSmiling (fst r) = false) /\
  (snd r = None <-> isSmiling (fst r) = isSmiling d) /\
  (forall now g, Game.runSmileCallback cb false now g = g) /\
  (forall now g, Game.runSmileCallback cb true now g = Game.flap now g).
Proof.
  intro r.
  assert (H := detectSmile_step x (set_onSmileChange (Some cb) d)).
  fold r in H. clearbody r. destruct r as [d' call].
  cbn [fst snd] in *.
  assert (H' :
    (isSmiling d = false /\ isSmiling d' = true /\ call = Some true) \/
    (isSmiling d = true /\ isSmiling d' = false /\ call = Some false) \/
    (isSmiling d' = isSmiling d /\ call = None)).
  { destruct H as [A _ B C | A _ B C | A B _]; auto. }
  clear H.
  split; [| split; [| split; [| split]]].
  - destruct H' as [(A & B & C) | [(A & B & C) | (A & B)]];
      (split; [intro | intros [? ?]]); try split; congruence.
  - destruct H' as [(A & B & C) | [(A & B & C) | (A & B)]];
      (split; [intro | intros [? ?]]); try split; congruence.
  - destruct H' as [(A & B & C) | [(A & B & C) | (A & B)]]; split; intros;
      congruence.
  - intros now g. destruct cb. reflexivity.
  - intros now g. destruct cb. reflexivity.
Qed.

Lemma detectTrace_cons (x : Q) (xs : list Q) (d : FaceDetector) :
  detectTrace (x :: xs) d
  = detectSmile x d :: detectTrace xs (fst (detectSmile x d)).
Proof. reflexivity. Qed.

(** While the smoothed score stays between the two thresholds (bounds
    included), the state does not move and no callback is made. *)
Lemma dead_zone_stable (xs : list Q) (d : FaceDetector) :
  Forall (fun r => resetThreshold <= smileScore (fst r) <= triggerThreshold)
         (detectTrace xs d) ->
  Forall (fun r => isSmiling (fst r) = isSmiling d /\ snd r = None)
         (detectTrace xs d).
Proof.
  revert d. induction xs as [| x xs IH]; intros d H.
  - constructor.
  - rewrite detectTrace_cons in *.
    inversion H as [| r rs [Hlo Hhi] Hrest]; subst.
    assert (Hstep : isSmiling (fst (detectSmile x d)) = isSmiling d
                    /\ snd (detectSmile x d) = None).
    { destruct (detectSmile_step x d) as [_ A _ _ | _ A _ _ | A B _].
      - exfalso. exact (Qlt_not_le _ _ A Hhi).
      - exfalso. exact (Qlt_not_le _ _ A Hlo).
      - split; assumption. }
    constructor; [exact Hstep |].
    destruct Hstep as [Hsame _]. rewrite <- Hsame. now apply IH.
Qed.

(** C4: for every sequence of evaluations whose smoothed scores all stay
    strictly inside (0.4, 0.6), the gesture state never changes (Idle
    stays Idle, Active stays Active) and no gesture event fires. *)
Theorem C4_dead_zone_never_toggles (xs : list Q) (d : FaceDetector) :
  Forall (fun r => 0.4 < smileScore (fst r) /\ smileScore (fst r) < 0.6)
         (detectTrace xs d) ->
  Forall (fun r => isSmiling (fst r) = isSmiling d /\ snd r = None)
         (detectTrace xs d) /\
  isSmiling (detectAll xs d) = isSmiling d.
Proof.
  intro H.
  assert (Hclosed :
    Forall (fun r => resetThreshold <= smileScore (fst r) <= triggerThreshold)
           (detectTrace xs d)).
  { eapply Forall_impl; [| exact H].
    intros r [Hlo Hhi]. unfold resetThreshold, triggerThreshold.
    split; apply Qlt_le_weak; assumption. }
  split; [now apply dead_zone_stable |].
  clear H. revert d Hclosed.
  induction xs as [| x xs IH]; intros d H; [reflexivity |].
  change (detectAll (x :: xs) d) with (detectAll xs (fst (detectSmile x d))).
  rewrite detectTrace_cons in H.
  pose proof (dead_zone_stable (x :: xs) d) as Hs.
  rewrite detectTrace_cons in Hs. specialize (Hs H).
  inversion Hs as [| r rs [Hsame _] _]; subst.
  inversion H as [| r rs _ Hrest]; subst.
  rewrite <- Hsame. now apply IH.
Qed.

Lemma C4_dead_zone_never_toggles_witness :
  isSmiling halfSmilingDetector = true /\
  Forall (fun r => isSmiling (fst r) = true /\ snd r = None)
         (detectTrace [0.5; 0.5] halfSmilingDetector).
Proof.
  split; [reflexivity |].
  refine (proj1 (C4_dead_zone_never_toggles [0.5; 0.5] halfSmilingDetector _)).
  repeat (constructor; [split; reflexivity |]).
  constructor.
Defined.

(** *** One event per activation *)

Lemma rising_iff (x : Q) (d : FaceDetector) :
  snd (detectSmile x d) = Some true <->
  onSmileChange d <> None /\ isSmiling d = false /\
  triggerThreshold < smileScore (fst (detectSmile x d)).
Proof.
  destruct (detectSmile_step x d) as [A B C D | A B C D | A B C].
  - rewrite D. destruct (onSmileChange d); cbn [option_map]; split.
    + intros _. repeat split; [discriminate | assumption | assumption].
    + reflexivity.
    + discriminate.
    + intros [E _]. now contradiction E.
  - rewrite D. split.
    + destruct (onSmileChange d); discriminate.
    + intros (_ & E & _). congruence.
  - rewrite B. split; [discriminate |].
    intros (_ & E & F). rewrite E in C.
    exfalso. exact (Qlt_not_le _ _ F C).
Qed.

(** An Active detector makes no callback and stays Active for as long as
    the smoothed score does not fall below the reset threshold. *)
Lemma active_stays_silent (xs : list Q) (d : FaceDetector) :
  isSmiling d = true ->
  Forall (fun r => resetThreshold <= smileScore (fst r)) (detectTrace xs d) ->
  Forall (fun r => snd r = None /\ isSmiling (fst r) = true)
         (detectTrace xs d).
Proof.
  revert d. induction xs as [| x xs IH]; intros d Hd H.
  - constructor.
  - rewrite detectTrace_cons in *.
    inversion H as [| r rs Hlo Hrest]; subst.
    assert (Hstep : snd (detectSmile x d) = None
                    /\ isSmiling (fst (detectSmile x d)) = true).
    { destruct (detectSmile_step x d) as [A _ _ _ | _ A _ _ | A B _].
      - congruence.
      - exfalso. exact (Qlt_not_le _ _ A Hlo).
      - split; congruence. }
    constructor; [exact Hstep |].
    apply IH; [apply Hstep | exact Hrest].
Qed.

(** Starting Active, a later activation is preceded by a call whose
    smoothed score was below the reset threshold and which left the
    detector Idle. *)
Lemma reactivation_needs_reset (xs : list Q) (d : FaceDetector)
    (i : nat) (ri : FaceDetector * option bool) :
  isSmiling d = true ->
  nth_error (detectTrace xs d) i = Some ri ->
  snd ri = Some true ->
  exists j rj, (j < i)%nat /\ nth_error (detectTrace xs d) j = Some rj /\
               smileScore (fst rj) < resetThreshold /\
               isSmiling (fst rj) = false.
Proof.
  revert d i. induction xs as [| x xs IH]; intros d i Hd Hnth Hev.
  - destruct i; discriminate Hnth.
  - rewrite detectTrace_cons in *.
    destruct i as [| i].
    + injection Hnth as <-.
      apply rising_iff in Hev. destruct Hev as (_ & E & _). congruence.
    + cbn [nth_error] in Hnth.
      destruct (isSmiling (fst (detectSmile x d))) eqn:Hnext.
      * destruct (IH _ _ Hnext Hnth Hev) as (j & rj & Hj & Hnj & Hlow & Hidle).
        exists (S j), rj. repeat split; [lia | exact Hnj | exact Hlow | exact Hidle].
      * exists 0%nat, (detectSmile x d).
        repeat split; [lia | | exact Hnext].
        destruct (detectSmile_step x d) as [A _ _ _ | _ A _ _ | A _ _];
          [congruence | exact A | congruence].
Qed.

Lemma trace_entries_are_steps (xs : list Q) (d : FaceDetector)
    (i : nat) (ri : FaceDetector * option bool) :
  nth_error (detectTrace xs d) i = Some ri ->
  exists y d0, ri = detectSmile y d0.
Proof.
  revert d i. induction xs as [| x xs IH]; intros d i Hnth.
  - destruct i; discriminate Hnth.
  - rewrite detectTrace_cons in Hnth. destruct i as [| i].
    + injection Hnth as <-. now exists x, d.
    + cbn [nth_error] in Hnth. now apply IH in Hnth.
Qed.

(** C5: the gesture event (the callback made with [true], at a
    transition to Active) fires exactly when an Idle detector's smoothed
    score exceeds 0.6.  Once it has fired, no event fires for as long as
    the smoothed score stays at or above 0.4 (so in particular while it
    stays above 0.6), and any later event is preceded by a call that
    brought the smoothed score below 0.4 and the state back to Idle, and
    itself sees a smoothed score above 0.6. *)
Theorem C5_one_event_per_activation
    (x : Q) (d : FaceDetector) (later : list Q) :
  let r := detectSmile x d in
  let after := detectTrace later (fst r) in
  (snd r = Some true <->
   onSmileChange d <> None /\ isSmiling d = false /\ 0.6 < smileScore (fst r)) /\
  (snd r = Some true ->
   (Forall (fun r' => 0.4 <= smileScore (fst r')) after ->
    Forall (fun r' => snd r' = None /\ isSmiling (fst r') = true) after) /\
   (forall i ri,
       nth_error after i = Some ri -> snd ri = Some true ->
       0.6 < smileScore (fst ri) /\
       exists j rj, (j < i)%nat /\ nth_error after j = Some rj /\
                    smileScore (fst rj) < 0.4 /\ isSmiling (fst rj) = false)).
Proof.
  intros r after. split; [apply rising_iff |].
  intro Hev.
  assert (Hactive : isSmiling (fst r) = true).
  { destruct (detectSmile_step x d) as [_ _ A _ | _ _ _ A | _ A _].
    - exact A.
    - unfold r in Hev. rewrite A in Hev.
      destruct (onSmileChange d); discriminate Hev.
    - unfold r in Hev. congruence. }
  split.
  - apply active_stays_silent. exact Hactive.
  - intros i ri Hnth Hri. split.
    + destruct (trace_entries_are_steps _ _ _ _ Hnth) as (y & d0 & ->).
      apply rising_iff in Hri. apply Hri.
    + exact (reactivation_needs_reset later (fst r) i ri Hactive Hnth Hri).
Qed.

Lemma C5_one_event_per_activation_witness :
  Forall (fun r' => snd r' = None /\ isSmiling (fst r') = true)
         (detectTrace [1; 1; 0.5] (fst (detectSmile 1 wiredDetector))) /\
  exists j rj,
    (j < 6)%nat /\
    nth_error (detectTrace [0; 0; 0; 1; 1; 1; 1]
                 (fst (detectSmile 1 wiredDetector))) j = Some rj /\
    smileScore (fst rj) < 0.4 /\ isSmiling (fst rj) = false.
Proof.
  split.
  - refine (proj1 (proj2 (C5_one_event_per_activation 1 wiredDetector
                            [1; 1; 0.5]) eq_refl) _).
    repeat (constructor; [discriminate |]).
    constructor.
  - refine (proj2 (proj2 (proj2 (C5_one_event_per_activation 1 wiredDetector
                                   [0; 0; 0; 1; 1; 1; 1]) eq_refl)
                     6%nat _ eq_refl eq_refl)).
Defined.

(** C6: on a fresh detector with the game's handler installed, the scores
    0,0,0,0,0,0.9,0.9,0.9,0.9,0.9 give the smoothed scores 0 (five times),
    0.18, 0.36, 0.54, 0.72, 0.9; exactly one callback is made, with
    [true], at the ninth sample, which is the fourth 0.9. *)
Theorem C6_scenario_triggers_at_fourth_high_sample :
  let t := detectTrace scenarioScores wiredDetector in
  map snd t
  = [None; None; None; None; None; None; None; None; Some true; None] /\
  map (fun r => isSmiling (fst r)) t
  = [false; false; false; false; false; false; false; false; true; true] /\
  Forall2 Qeq (map (fun r => smileScore (fst r)) t)
          [0; 0; 0; 0; 0; 0.18; 0.36; 0.54; 0.72; 0.9] /\
  nth_error scenarioScores 8 = Some 0.9 /\
  firstn 8 scenarioScores = [0; 0; 0; 0; 0; 0.9; 0.9; 0.9].
Proof.
  cbv zeta. split; [reflexivity |]. split; [reflexivity |].
  split; [| split; reflexivity].
  repeat (constructor; [reflexivity |]). constructor.
Qed.

(** The same scenario replayed with binary64 arithmetic: the callbacks
    and the states are those of the rational model, and the smoothed
    scores after the third and fourth 0.9 lie on the same sides of the
    trigger threshold. *)
Lemma scenario_in_binary64 :
  let t := Binary64.detectTrace64 scenarioScores64 wiredDetector64 in
  map snd t = map snd (detectTrace scenarioScores wiredDetector) /\
  map (fun r => Binary64.isSmiling64 (fst r)) t
  = map (fun r => isSmiling (fst r)) (detectTrace scenarioScores wiredDetector) /\
  map (fun r => PrimFloat.ltb 0.6 (Binary64.smileScore64 (fst r))) t
  = [false; false; false; false; false; false; false; false; true; true].
Proof. cbv zeta. repeat split; vm_compute; reflexivity. Qed.

(** With binary64 arithmetic too, the samples 1, 0, 0 end with a
    callback made with [false]. *)
Lemma reset_callback_in_binary64 :
  map snd (Binary64.detectTrace64 [1; 0; 0]%float wiredDetector64)
  = [Some true; None; Some false].
Proof. vm_compute. reflexivity. Qed.

End DetectorFacts.

(** ** Facts about the game *)

Module GameFacts.

Import Game Examples.

Ltac unfold_constants :=
  unfold forgiveness in *;
  unfold SCREEN_WIDTH, SCREEN_HEIGHT, GRAVITY, FLAP_STRENGTH, OBSTACLE_SPEED,
    OBSTACLE_WIDTH, GAP_SIZE, BIRD_SIZE, BIRD_X, SPAWN_DISTANCE in *.

Lemma birdRadius_value : BIRD_SIZE / 2 == 30.
Proof. reflexivity. Qed.

(** Linear arithmetic over the rationals, knowing the bird's radius. *)
Ltac radius_lra :=
  pose proof birdRadius_value; unfold_constants; cbv zeta; lra.

(** *** Flap requests *)

Lemma flap_rejected (now : Z) (g : FlappyGame) :
  flapAccepted now g = false -> flap now g = g.
Proof.
  unfold flapAccepted, flap. intro H.
  destruct (Z.ltb_spec (now - lastFlapTime g) MIN_FLAP_INTERVAL) as [_ | Hge];
    [reflexivity |].
  destruct (gameStarted g), (gameOver g); cbn [negb orb andb] in *;
    try reflexivity.
  apply Z.leb_gt in H. lia.
Qed.

Lemma flap_accepted (now : Z) (g : FlappyGame) :
  flapAccepted now g = true ->
  flap now g
  = emit (PlaySound "jump")
      (set_lastFlapTime now (set_birdVelocity FLAP_STRENGTH g)).
Proof.
  unfold flapAccepted, flap. intro H.
  apply andb_prop in H. destruct H as [H Ht].
  apply andb_prop in H. destruct H as [Hs Ho].
  apply Z.leb_le in Ht.
  destruct (Z.ltb_spec (now - lastFlapTime g) MIN_FLAP_INTERVAL) as [Hlt | _];
    [lia |].
  rewrite Hs. destruct (gameOver g); [discriminate Ho | reflexivity].
Qed.

Lemma update_keeps_lastFlapTime (rnd : Q) (now : Z) (g : FlappyGame) :
  lastFlapTime (update rnd now g) = lastFlapTime g.
Proof.
  unfold update, updateWorld, moveObstacles, spawnStep, clampBird, birdPhysics,
    spawnObstacle.
  repeat match goal with
         | |- context [if ?c then _ else _] => destruct c
         | |- context [match rev ?l with _ => _ end] => destruct (rev l)
         | |- context [let '(_, _) := ?p in _] => destruct p
         end; reflexivity.
Qed.

Lemma ticks_keep_lastFlapTime (acts : list Action) (g : FlappyGame) :
  forallb isTick acts = true ->
  lastFlapTime (play acts g) = lastFlapTime g.
Proof.
  revert g. induction acts as [| a acts IH]; intros g H; [reflexivity |].
  cbn [forallb] in H. apply andb_prop in H. destruct H as [Ha Hrest].
  change (play (a :: acts) g) with (play acts (act a g)).
  rewrite IH by exact Hrest.
  destruct a as [rnd now | now]; [| discriminate Ha].
  apply update_keeps_lastFlapTime.
Qed.

(** C7: a flap request is accepted only when the game is running
    (started and not over) and at least 500 ms have passed since the last
    accepted flap.  A rejected request returns the game exactly as it
    was (velocity, last-flap time and every other field).  An accepted
    request sets the velocity to -7 whatever it was, records the time and
    touches no other part of the simulation; a second request less than
    500 ms later, with any number of physics ticks in between, is
    rejected. *)
Theorem C7_flap_gate (now : Z) (g : FlappyGame) :
  (flapAccepted now g = true <->
   gameStarted g = true /\ gameOver g = false /\
   (500 <= now - lastFlapTime g)%Z) /\
  (flapAccepted now g = false -> flap now g = g) /\
  (flapAccepted now g = true ->
   birdVelocity (flap now g) = -7 /\
   lastFlapTime (flap now g) = now /\
   birdY (flap now g) = birdY g /\
   obstacles (flap now g) = obstacles g /\
   score (flap now g) = score g /\
   gameStarted (flap now g) = true /\
   gameOver (flap now g) = false /\
   currentRound (flap now g) = currentRound g /\
   bestScore (flap now g) = bestScore g /\
   forall ticks now',
     forallb isTick ticks = true -> (now' - now < 500)%Z ->
     flap now' (play ticks (flap now g)) = play ticks (flap now g)).
Proof.
  split; [| split].
  - unfold flapAccepted, MIN_FLAP_INTERVAL.
    rewrite !andb_true_iff, negb_true_iff, Z.leb_le. tauto.
  - apply flap_rejected.
  - intro H. rewrite (flap_accepted now g H).
    unfold flapAccepted in H.
    apply andb_prop in H. destruct H as [H _].
    apply andb_prop in H. destruct H as [Hs Ho].
    apply negb_true_iff in Ho.
    repeat (split; [first [reflexivity | assumption] |]).
    intros ticks now' Hticks Hsoon.
    apply flap_rejected. unfold flapAccepted.
    rewrite (ticks_keep_lastFlapTime ticks _ Hticks).
    cbn [emit set_effects set_lastFlapTime lastFlapTime].
    unfold MIN_FLAP_INTERVAL.
    replace (500 <=? now' - now)%Z with false
      by (symmetry; apply Z.leb_gt; lia).
    apply andb_false_r.
Qed.

Lemma C7_flap_gate_witness :
  birdVelocity (flap 1700000000000 (update (1 # 2) 1699999999000 runningGame))
  = -7 /\
  flap 1700000000499
    (play [Tick (1 # 2) 1700000000100]
       (flap 1700000000000 (update (1 # 2) 1699999999000 runningGame)))
  = play [Tick (1 # 2) 1700000000100]
      (flap 1700000000000 (update (1 # 2) 1699999999000 runningGame)) /\
  flap 1700000009000 finalRoundOverGame = finalRoundOverGame.
Proof.
  destruct (C7_flap_gate 1700000000000
              (update (1 # 2) 1699999999000 runningGame))
    as (_ & _ & H).
  destruct (H eq_refl) as (Hv & _ & _ & _ & _ & _ & _ & _ & _ & Hnext).
  split; [exact Hv |]. split.
  - apply (Hnext [Tick (1 # 2) 1700000000100] 1700000000499%Z);
      [reflexivity | reflexivity].
  - destruct (C7_flap_gate 1700000009000 finalRoundOverGame) as (_ & Hrej & _).
    apply Hrej. reflexivity.
Defined.

(** *** Bird physics *)

Lemma updateWorld_bird (rnd : Q) (now : Z) (g : FlappyGame) :
  birdVelocity (updateWorld rnd now g) = birdVelocity (clampBird (birdPhysics g)) /\
  birdY (updateWorld rnd now g) = birdY (clampBird (birdPhysics g)) /\
  gameOver (updateWorld rnd now g) = gameOver (clampBird (birdPhysics g)).
Proof.
  unfold updateWorld, moveObstacles, spawnStep, spawnObstacle.
  repeat match goal with
         | |- context [if ?c then _ else _] => destruct c
         | |- context [match rev ?l with _ => _ end] => destruct (rev l)
         | |- context [let '(_, _) := ?p in _] => destruct p
         end; repeat split.
Qed.

Lemma update_bird (rnd : Q) (now : Z) (g : FlappyGame) :
  birdVelocity (update rnd now g) = birdVelocity (clampBird (birdPhysics g)) /\
  birdY (update rnd now g) = birdY (clampBird (birdPhysics g)).
Proof.
  destruct (updateWorld_bird rnd now g) as (Hv & Hy & _).
  unfold update. destruct (checkCollision (updateWorld rnd now g));
    split; assumption.
Qed.

(** The velocity a tick leaves, by the way taken through the gravity,
    terminal-velocity and ceiling code. *)
Lemma tick_velocity (g : FlappyGame) :
  let fallen :=
    if Qgtb (birdVelocity g + GRAVITY) 10 then 10
    else birdVelocity g + GRAVITY in
  birdVelocity (clampBird (birdPhysics g))
  = if Qltb (birdY g + fallen) (BIRD_SIZE / 2) then 0 else fallen.
Proof.
  unfold clampBird, birdPhysics.
  cbn [set_birdVelocity set_birdY set_gameOver birdVelocity birdY].
  destruct (Qgtb (birdVelocity g + GRAVITY) 10);
    cbn [set_birdVelocity set_birdY set_gameOver birdVelocity birdY];
    match goal with
    | |- context [Qltb ?a ?b] => destruct (Qltb a b)
    end;
    cbn [set_birdVelocity set_birdY set_gameOver birdVelocity birdY];
    match goal with
    | |- context [Qgtb ?a ?b] => destruct (Qgtb a b)
    end; reflexivity.
Qed.

Lemma tick_velocity_le_10 (g : FlappyGame) :
  birdVelocity (clampBird (birdPhysics g)) <= 10.
Proof.
  rewrite tick_velocity.
  destruct (Qltb _ (BIRD_SIZE / 2)); [lra |].
  destruct (Qgtb (birdVelocity g + GRAVITY) 10) eqn:E; [lra |].
  now apply Qgtb_le in E.
Qed.

Lemma tick_velocity_lower (g : FlappyGame) :
  -7 <= birdVelocity g ->
  -7 <= birdVelocity (clampBird (birdPhysics g)).
Proof.
  intro H. rewrite tick_velocity.
  destruct (Qltb _ (BIRD_SIZE / 2)); [lra |].
  destruct (Qgtb (birdVelocity g + GRAVITY) 10); unfold GRAVITY; lra.
Qed.

Lemma act_keeps_velocity_range (a : Action) (g : FlappyGame) :
  -7 <= birdVelocity g <= 10 ->
  -7 <= birdVelocity (act a g) <= 10.
Proof.
  intros [Hlo Hhi]. destruct a as [rnd now | now]; cbn [act].
  - destruct (update_bird rnd now g) as (-> & _). split.
    + now apply tick_velocity_lower.
    + apply tick_velocity_le_10.
  - destruct (flapAccepted now g) eqn:E.
    + rewrite (flap_accepted now g E).
      cbn [emit set_effects set_lastFlapTime set_birdVelocity birdVelocity].
      unfold FLAP_STRENGTH. lra.
    + rewrite (flap_rejected now g E). now split.
Qed.

Lemma play_keeps_velocity_range (acts : list Action) (g : FlappyGame) :
  -7 <= birdVelocity g <= 10 ->
  -7 <= birdVelocity (play acts g) <= 10.
Proof.
  revert g. induction acts as [| a acts IH]; intros g H; [exact H |].
  change (play (a :: acts) g) with (play acts (act a g)).
  apply IH. now apply act_keeps_velocity_range.
Qed.

(** C8: after every physics tick the bird's velocity is at most 10, from
    whatever state the tick starts; in every state reached from the start
    of a round by any interleaving of ticks and flap requests the
    velocity lies between -7 and 10.  The clamp is on the upper side
    only: a tick that neither exceeds 10 nor hits the ceiling leaves
    exactly the old velocity plus gravity, however negative, and the
    only other values a tick can leave are 10 and, at the ceiling, 0. *)
Theorem C8_velocity_bounded_above_only
    (rnd : Q) (now : Z) (g : FlappyGame) :
  birdVelocity (update rnd now g) <= 10 /\
  (forall g0 acts,
      -7 <= birdVelocity (play acts (beginGameplay g0)) <= 10) /\
  (birdVelocity g + 0.2 <= 10 -> 30 <= birdY g + (birdVelocity g + 0.2) ->
   birdVelocity (update rnd now g) = birdVelocity g + 0.2) /\
  (10 < birdVelocity g + 0.2 -> 30 <= birdY g + 10 ->
   birdVelocity (update rnd now g) = 10) /\
  (birdVelocity g + 0.2 <= 10 -> birdY g + (birdVelocity g + 0.2) < 30 ->
   birdVelocity (update rnd now g) = 0).
Proof.
  destruct (update_bird rnd now g) as (Hv & _). rewrite Hv.
  split; [apply tick_velocity_le_10 |].
  split.
  { intros g0 acts. apply play_keeps_velocity_range.
    cbn. lra. }
  rewrite tick_velocity. change GRAVITY with 0.2.
  split; [| split].
  - intros Hle Hy.
    assert (E : Qltb (birdY g + (birdVelocity g + 0.2)) (BIRD_SIZE / 2) = false)
      by (apply Qltb_ge; radius_lra).
    apply Qgtb_le in Hle. now rewrite Hle, E.
  - intros Hgt Hy.
    assert (E : Qltb (birdY g + 10) (BIRD_SIZE / 2) = false)
      by (apply Qltb_ge; radius_lra).
    apply Qgtb_gt in Hgt. now rewrite Hgt, E.
  - intros Hle Hy.
    assert (E : Qltb (birdY g + (birdVelocity g + 0.2)) (BIRD_SIZE / 2) = true)
      by (apply Qltb_lt; radius_lra).
    apply Qgtb_le in Hle. now rewrite Hle, E.
Qed.

Lemma C8_velocity_bounded_above_only_witness :
  birdVelocity
    (update (1 # 2) 1700000000100
       (flap 1700000000000 (update (1 # 2) 1699999999000 runningGame)))
  = -7 + 0.2 /\
  birdVelocity (update (1 # 2) 1700000000100 fallingGame) = 10 /\
  birdVelocity (update (1 # 2) 1700000000100 risingGame) = 0.
Proof.
  split; [| split].
  - destruct (C8_velocity_bounded_above_only (1 # 2) 1700000000100
                (flap 1700000000000
                   (update (1 # 2) 1699999999000 runningGame)))
      as (_ & _ & H & _).
    apply H; vm_compute; discriminate.
  - destruct (C8_velocity_bounded_above_only (1 # 2) 1700000000100
                fallingGame) as (_ & _ & _ & H & _).
    apply H; vm_compute; [reflexivity | discriminate].
  - destruct (C8_velocity_bounded_above_only (1 # 2) 1700000000100
                risingGame) as (_ & _ & _ & _ & H).
    apply H; vm_compute; [discriminate | reflexivity].
Defined.

(** *** End of a round *)

Lemma showCTAScreen_page (g : FlappyGame) :
  ctaScreenActive (showCTAScreen g) = true /\
  gameScreenActive (showCTAScreen g) = false /\
  roundOverOverlayHidden (showCTAScreen g) = roundOverOverlayHidden g /\
  bestScore (showCTAScreen g) = bestScore g /\
  currentRound (showCTAScreen g) = currentRound g /\
  gameStarted (showCTAScreen g) = gameStarted g.
Proof.
  unfold showCTAScreen.
  destruct (animationId g); cbn; destruct (faceDetector g); repeat split.
Qed.

Ltac simpl_fields :=
  cbn [emit set_effects set_gameStarted set_bestScore
       set_roundOverOverlayHidden set_gameScreenActive set_ctaScreenActive
       set_lastGameLoopTime set_animationId
       score bestScore currentRound gameStarted gameScreenActive
       ctaScreenActive roundOverOverlayHidden animationId faceDetector
       lastGameLoopTime gameOver].

(** Everything [handleGameOver] leaves behind, by the round it ends. *)
Lemma handleGameOver_fields (g : FlappyGame) :
  bestScore (handleGameOver g) = Z.max (bestScore g) (score g) /\
  gameStarted (handleGameOver g) = false /\
  currentRound (handleGameOver g) = currentRound g /\
  if (currentRound g <? 3)%Z
  then roundOverOverlayHidden (handleGameOver g) = false /\
       ctaScreenActive (handleGameOver g) = ctaScreenActive g /\
       gameScreenActive (handleGameOver g) = gameScreenActive g
  else ctaScreenActive (handleGameOver g) = true /\
       gameScreenActive (handleGameOver g) = false /\
       roundOverOverlayHidden (handleGameOver g) = roundOverOverlayHidden g.
Proof.
  unfold handleGameOver, maxRounds. cbv zeta. simpl_fields.
  destruct (Z.gtb_spec (score g) (bestScore g)) as [Hgt | Hle]; simpl_fields;
    destruct (currentRound g <? 3)%Z; simpl_fields.
  - repeat split. lia.
  - match goal with
    | |- context [showCTAScreen ?h] =>
        destruct (showCTAScreen_page h) as (A & B & C & D & E & F)
    end.
    rewrite A, B, C, D, E, F. simpl_fields. repeat split. lia.
  - repeat split. lia.
  - match goal with
    | |- context [showCTAScreen ?h] =>
        destruct (showCTAScreen_page h) as (A & B & C & D & E & F)
    end.
    rewrite A, B, C, D, E, F. simpl_fields. repeat split. lia.
Qed.

(** C9: at the end of a round ([gameLoop] finds the terminal flag set
    after [update] and calls [handleGameOver]) the round's score is folded
    into the best score as max(best, score), the game is no longer
    started, and the page goes to the round-over overlay when the current
    round is below 3 (the round counter is left for the next round to
    increment) or to the CTA screen, with the overlay left as it was, when
    it is the third round. *)
Theorem C9_round_end (g : FlappyGame) :
  bestScore (handleGameOver g) = Z.max (bestScore g) (score g) /\
  gameStarted (handleGameOver g) = false /\
  currentRound (handleGameOver g) = currentRound g /\
  ((currentRound g < 3)%Z ->
   roundOverOverlayHidden (handleGameOver g) = false /\
   ctaScreenActive (handleGameOver g) = ctaScreenActive g /\
   gameScreenActive (handleGameOver g) = gameScreenActive g) /\
  ((currentRound g = 3)%Z ->
   ctaScreenActive (handleGameOver g) = true /\
   gameScreenActive (handleGameOver g) = false /\
   roundOverOverlayHidden (handleGameOver g) = roundOverOverlayHidden g) /\
  (forall currentTime rnd now,
      gameStarted g = true ->
      1000 / 30 <= currentTime - lastGameLoopTime g ->
      gameOver (update rnd now (set_lastGameLoopTime currentTime g)) = true ->
      gameLoop currentTime rnd now g
      = handleGameOver (update rnd now (set_lastGameLoopTime currentTime g))).
Proof.
  destruct (handleGameOver_fields g) as (Hbest & Hstarted & Hround & Hpage).
  split; [exact Hbest |]. split; [exact Hstarted |]. split; [exact Hround |].
  split; [| split].
  - intro Hlt. apply Z.ltb_lt in Hlt. now rewrite Hlt in Hpage.
  - intro Hlast.
    assert (E : (currentRound g <? 3)%Z = false) by (apply Z.ltb_ge; lia).
    now rewrite E in Hpage.
  - intros currentTime rnd now Hs Hdue Hover.
    unfold gameLoop. rewrite Hs. cbn [negb].
    apply Qltb_ge in Hdue. rewrite Hdue. cbv zeta.
    now rewrite Hover.
Qed.

Lemma C9_round_end_witness :
  gameLoop 40 (1 # 2) 1700000000000 fallingGame
  = handleGameOver
      (update (1 # 2) 1700000000000 (set_lastGameLoopTime 40 fallingGame)) /\
  roundOverOverlayHidden
    (handleGameOver
       (update (1 # 2) 1700000000000 (set_lastGameLoopTime 40 fallingGame)))
  = false /\
  ctaScreenActive (handleGameOver finalRoundOverGame) = true /\
  bestScore (handleGameOver finalRoundOverGame) = 50%Z.
Proof.
  split; [| split; [| split]].
  - destruct (C9_round_end fallingGame) as (_ & _ & _ & _ & _ & H).
    apply H; [reflexivity | vm_compute; discriminate | reflexivity].
  - destruct (C9_round_end
                (update (1 # 2) 1700000000000
                   (set_lastGameLoopTime 40 fallingGame)))
      as (_ & _ & _ & H & _).
    apply H. reflexivity.
  - destruct (C9_round_end finalRoundOverGame) as (_ & _ & _ & _ & H & _).
    apply H. reflexivity.
  - destruct (C9_round_end finalRoundOverGame) as (H & _).
    exact H.
Defined.

(** *** Collision *)

Lemma clampBird_range (g : FlappyGame) :
  BIRD_SIZE / 2 <= birdY (clampBird g) <= SCREEN_HEIGHT - BIRD_SIZE / 2.
Proof.
  unfold clampBird. cbv zeta.
  destruct (Qltb (birdY g) (BIRD_SIZE / 2)) eqn:Elow;
    cbn [set_birdVelocity set_birdY birdY];
    match goal with
    | |- context [Qgtb ?a ?b] => destruct (Qgtb a b) eqn:Ehigh
    end;
    cbn [set_gameOver set_birdVelocity set_birdY birdY].
  - radius_lra.
  - apply Qgtb_le in Ehigh. split; [apply Qle_refl | exact Ehigh].
  - radius_lra.
  - apply Qltb_ge in Elow. apply Qgtb_le in Ehigh. split; assumption.
Qed.

(** The floor clamp is what sets the terminal flag at the lower bound. *)
Lemma clampBird_floor (g : FlappyGame) :
  SCREEN_HEIGHT - BIRD_SIZE / 2 < birdY g ->
  birdY (clampBird g) = SCREEN_HEIGHT - BIRD_SIZE / 2 /\
  gameOver (clampBird g) = true.
Proof.
  intro H. unfold clampBird. cbv zeta.
  assert (Elow : Qltb (birdY g) (BIRD_SIZE / 2) = false)
    by (apply Qltb_ge; radius_lra).
  rewrite Elow.
  apply Qgtb_gt in H. rewrite H. split; reflexivity.
Qed.

(** C10: in the state on which [update] calls [checkCollision] the bird
    is between the ceiling clamp (30) and the floor clamp (450), so the
    shrunk box has its top at 6 or more and its bottom at 474 or less;
    the screen-bounds test is false there and [checkCollision] returns
    exactly what the obstacle loop finds.  The terminal flag after
    [update] is therefore the one the floor clamp set, or an obstacle
    overlap. *)
Theorem C10_screen_bounds_branch_unreachable
    (rnd : Q) (now : Z) (g : FlappyGame) :
  let w := updateWorld rnd now g in
  30 <= birdY w <= 450 /\
  6 <= safeTop w /\ safeBottom w <= 474 /\
  outOfScreen w = false /\
  checkCollision w = existsb (hitsObstacle w) (obstacles w) /\
  gameOver (update rnd now g)
  = gameOver (clampBird (birdPhysics g))
    || existsb (hitsObstacle w) (obstacles w) /\
  (450 < birdY (birdPhysics g) ->
   birdY w = SCREEN_HEIGHT - BIRD_SIZE / 2 /\ gameOver (update rnd now g) = true).
Proof.
  intro w.
  destruct (updateWorld_bird rnd now g) as (_ & Hy & Hover).
  fold w in Hy, Hover.
  pose proof (clampBird_range (birdPhysics g)) as [Hlo Hhi].
  rewrite <- Hy in Hlo, Hhi.
  assert (Hrange : 30 <= birdY w <= 450) by (split; radius_lra).
  assert (Htop : 6 <= safeTop w) by (unfold safeTop; radius_lra).
  assert (Hbottom : safeBottom w <= 474) by (unfold safeBottom; radius_lra).
  assert (Hout : outOfScreen w = false).
  { unfold outOfScreen. apply orb_false_intro.
    - apply Qltb_ge. lra.
    - apply Qgtb_le. unfold SCREEN_HEIGHT. lra. }
  assert (Hcheck : checkCollision w = existsb (hitsObstacle w) (obstacles w)).
  { unfold checkCollision. now rewrite Hout. }
  assert (Hflag : gameOver (update rnd now g)
                  = gameOver (clampBird (birdPhysics g))
                    || existsb (hitsObstacle w) (obstacles w)).
  { unfold update. fold w. rewrite Hcheck, <- Hover.
    destruct (existsb (hitsObstacle w) (obstacles w));
      cbn [set_gameOver gameOver].
    - now rewrite orb_true_r.
    - now rewrite orb_false_r. }
  repeat (split; [assumption |]).
  intro Hfloor.
  destruct (clampBird_floor (birdPhysics g)) as [Hy' Hover'];
    [radius_lra |].
  split; [congruence |].
  rewrite Hflag, Hover'. reflexivity.
Qed.

Lemma C10_screen_bounds_branch_unreachable_witness :
  birdY (updateWorld (1 # 2) 1700000000000 fallingGame)
  = SCREEN_HEIGHT - BIRD_SIZE / 2 /\
  gameOver (update (1 # 2) 1700000000000 fallingGame) = true /\
  outOfScreen (updateWorld (1 # 2) 1700000000000 fallingGame) = false.
Proof.
  destruct (C10_screen_bounds_branch_unreachable (1 # 2) 1700000000000
              fallingGame) as (_ & _ & _ & Hout & _ & _ & H).
  destruct H as [Hy Hover]; [vm_compute; reflexivity |].
  repeat split; assumption.
Defined.

End GameFacts.

(** ** Further facts about the detector *)

Module DetectorExtras.

Import FaceDetection Examples DetectorFacts.

(** *** Looking up a blendshape *)

Lemma getBlendshapeScore_absent (blendshapes : list Category) (name : string) :
  Forall (fun b => categoryName b <> name) blendshapes ->
  getBlendshapeScore blendshapes name = 0.
Proof.
  unfold getBlendshapeScore.
  intro H. induction H as [| b l Hb _ IH]; [reflexivity |].
  cbn [find]. apply String.eqb_neq in Hb. now rewrite Hb.
Qed.

(** X1: [getBlendshapeScore] returns 0 when no category carries the name,
    and otherwise the score of the first category that does, whatever
    follows it in the array. *)
Theorem getBlendshapeScore_first_match_or_zero
    (blendshapes : list Category) (name : string) :
  (Forall (fun b => categoryName b <> name) blendshapes ->
   getBlendshapeScore blendshapes name = 0) /\
  (forall before shape after,
      blendshapes = before ++ shape :: after ->
      Forall (fun b => categoryName b <> name) before ->
      categoryName shape = name ->
      getBlendshapeScore blendshapes name = score shape).
Proof.
  split; [apply getBlendshapeScore_absent |].
  unfold getBlendshapeScore.
  - intros before shape after -> Hbefore Hname.
    induction Hbefore as [| b l Hb _ IH]; cbn [app find].
    + apply String.eqb_eq in Hname. now rewrite Hname.
    + apply String.eqb_neq in Hb. now rewrite Hb.
Qed.

Lemma getBlendshapeScore_first_match_or_zero_witness :
  getBlendshapeScore
    [{| categoryName := "jawOpen"; score := 0.3 |};
     {| categoryName := "mouthSmileLeft"; score := 0.8 |};
     {| categoryName := "mouthSmileLeft"; score := 0.1 |}]
    "mouthSmileLeft" = 0.8 /\
  getBlendshapeScore
    [{| categoryName := "jawOpen"; score := 0.3 |}] "mouthSmileRight" = 0.
Proof.
  split.
  - refine (proj2 (getBlendshapeScore_first_match_or_zero _ "mouthSmileLeft")
              [{| categoryName := "jawOpen"; score := 0.3 |}]
              {| categoryName := "mouthSmileLeft"; score := 0.8 |}
              [{| categoryName := "mouthSmileLeft"; score := 0.1 |}]
              eq_refl _ eq_refl).
    repeat constructor. discriminate.
  - refine (proj1 (getBlendshapeScore_first_match_or_zero _ "mouthSmileRight") _).
    repeat constructor. discriminate.
Defined.

(** *** The smoothed score stays among the samples *)

Lemma length_number_succ {A : Type} (a : A) (l : list A) :
  inject_Z (Z.of_nat (length (a :: l))) == inject_Z (Z.of_nat (length l)) + 1.
Proof.
  cbn [length]. rewrite Nat2Z.inj_succ, <- Z.add_1_r, inject_Z_plus.
  reflexivity.
Qed.

Lemma length_number_pos {A : Type} (l : list A) :
  l <> [] -> 0 < inject_Z (Z.of_nat (length l)).
Proof.
  destruct l as [| a l]; [congruence |]. intros _.
  rewrite length_number_succ.
  assert (0 <= inject_Z (Z.of_nat (length l))).
  { change 0 with (inject_Z 0). rewrite <- Zle_Qle. lia. }
  lra.
Qed.

Lemma sum_lower (lo : Q) (l : list Q) :
  Forall (fun v => lo <= v) l ->
  inject_Z (Z.of_nat (length l)) * lo <= fold_right Qplus 0 l.
Proof.
  induction 1 as [| v l Hv _ IH].
  - cbn [length fold_right]. change (inject_Z (Z.of_nat 0)) with 0. lra.
  - rewrite length_number_succ. cbn [fold_right].
    set (n := inject_Z (Z.of_nat (length l))) in *.
    setoid_replace ((n + 1) * lo) with (n * lo + lo) by ring. lra.
Qed.

Lemma sum_upper (hi : Q) (l : list Q) :
  Forall (fun v => v <= hi) l ->
  fold_right Qplus 0 l <= inject_Z (Z.of_nat (length l)) * hi.
Proof.
  induction 1 as [| v l Hv _ IH].
  - cbn [length fold_right]. change (inject_Z (Z.of_nat 0)) with 0. lra.
  - rewrite length_number_succ. cbn [fold_right].
    set (n := inject_Z (Z.of_nat (length l))) in *.
    setoid_replace ((n + 1) * hi) with (n * hi + hi) by ring. lra.
Qed.

Lemma sum_lower_strict (lo : Q) (l : list Q) :
  l <> [] -> Forall (fun v => lo < v) l ->
  inject_Z (Z.of_nat (length l)) * lo < fold_right Qplus 0 l.
Proof.
  intros Hne H.
  assert (Hweak : Forall (fun v => lo <= v) l).
  { eapply Forall_impl; [| exact H]. intros v Hv. now apply Qlt_le_weak. }
  destruct H as [| v l Hv Hrest]; [congruence |].
  rewrite length_number_succ. cbn [fold_right].
  inversion Hweak as [| ? ? _ Hweak']; subst.
  pose proof (sum_lower lo l Hweak') as Hsum.
  set (n := inject_Z (Z.of_nat (length l))) in *.
  setoid_replace ((n + 1) * lo) with (n * lo + lo) by ring. lra.
Qed.

Lemma sum_upper_strict (hi : Q) (l : list Q) :
  l <> [] -> Forall (fun v => v < hi) l ->
  fold_right Qplus 0 l < inject_Z (Z.of_nat (length l)) * hi.
Proof.
  intros Hne H.
  assert (Hweak : Forall (fun v => v <= hi) l).
  { eapply Forall_impl; [| exact H]. intros v Hv. now apply Qlt_le_weak. }
  destruct H as [| v l Hv Hrest]; [congruence |].
  rewrite length_number_succ. cbn [fold_right].
  inversion Hweak as [| ? ? _ Hweak']; subst.
  pose proof (sum_upper hi l Hweak') as Hsum.
  set (n := inject_Z (Z.of_nat (length l))) in *.
  setoid_replace ((n + 1) * hi) with (n * hi + hi) by ring. lra.
Qed.


Lemma mean_above (lo : Q) (l : list Q) :
  l <> [] -> Forall (fun v => lo < v) l -> lo < arithmeticMean l.
Proof.
  intros Hne H. unfold arithmeticMean.
  apply Qlt_shift_div_l; [now apply length_number_pos |].
  rewrite Qmult_comm. now apply sum_lower_strict.
Qed.

Lemma mean_below (hi : Q) (l : list Q) :
  l <> [] -> Forall (fun v => v < hi) l -> arithmeticMean l < hi.
Proof.
  intros Hne H. unfold arithmeticMean.
  apply Qlt_shift_div_r; [now apply length_number_pos |].
  rewrite Qmult_comm. now apply sum_upper_strict.
Qed.



Lemma pushScore_length (buf : list Q) (x : Q) :
  (length buf <= bufferSize)%nat ->
  (length (pushScore buf x) <= bufferSize)%nat.
Proof.
  intro H. rewrite (pushScore_lastN buf x H), lastN_length.
  apply Nat.le_min_r.
Qed.



(** *** Sustained input decides the state *)

Lemma lastN_app_long {A : Type} (n : nat) (l xs : list A) :
  (n <= length xs)%nat -> lastN n (l ++ xs) = lastN n xs.
Proof.
  intro H. unfold lastN. rewrite length_app, skipn_app.
  rewrite skipn_all2 by lia. cbn [app]. f_equal. lia.
Qed.

Lemma lastN_keeps {A : Type} (P : A -> Prop) (n : nat) (l : list A) :
  Forall P l -> Forall P (lastN n l).
Proof.
  intro H. unfold lastN.
  rewrite <- (firstn_skipn (length l - n) l) in H.
  apply Forall_app in H. apply H.
Qed.

(** After at least [bufferSize] calls the buffer holds only samples of
    those calls. *)
Lemma buffer_after_long_run (xs : list Q) (d : FaceDetector) :
  (length (smileBuffer d) <= 5)%nat -> (5 <= length xs)%nat ->
  smileBuffer (detectAll xs d) = lastN 5 xs /\
  smileScore (detectAll xs d) == arithmeticMean (lastN 5 xs).
Proof.
  intros Hlen Hlong.
  assert (Hbuf : smileBuffer (detectAll xs d) = lastN 5 xs).
  { rewrite detectAll_buffer by exact Hlen. now apply lastN_app_long. }
  split; [exact Hbuf |].
  destruct (exists_last (l := xs)) as (ys & x & ->).
  { intros ->. cbn in Hlong. lia. }
  rewrite <- Hbuf, detectAll_snoc, detectSmile_score.
  apply sumBuffer_mean.
Qed.

Lemma last_call (ys : list Q) (x : Q) (d : FaceDetector) :
  HysteresisStep (detectAll ys d) (detectSmile x (detectAll ys d)) /\
  fst (detectSmile x (detectAll ys d)) = detectAll (ys ++ [x]) d.
Proof. split; [apply detectSmile_step | now rewrite detectAll_snoc]. Qed.

(** An Idle detector that ends Active has made the callback with [true]
    on the way, if a handler was set. *)
Lemma activation_is_notified (xs : list Q) (d : FaceDetector) :
  isSmiling d = false -> onSmileChange d <> None ->
  isSmiling (detectAll xs d) = true ->
  In (Some true) (map snd (detectTrace xs d)).
Proof.
  revert d. induction xs as [| x xs IH]; intros d Hidle Hcb Hend.
  - cbn in Hend. congruence.
  - rewrite detectTrace_cons. cbn [map].
    change (detectAll (x :: xs) d)
      with (detectAll xs (fst (detectSmile x d))) in Hend.
    destruct (detectSmile_step x d) as [_ _ _ D | A _ _ _ | A _ _].
    + left. rewrite D. destruct (onSmileChange d); [reflexivity | congruence].
    + congruence.
    + right. apply IH; [congruence | | exact Hend].
      now rewrite onSmileChange_kept.
Qed.

(** X3: five or more consecutive samples above 0.6 leave the detector
    Active, whatever its buffer (of at most 5 values) and state were
    before; if it was Idle with a handler set, the callback was made with
    [true] during those calls. *)
Theorem sustained_smile_activates (xs : list Q) (d : FaceDetector) :
  (length (smileBuffer d) <= 5)%nat -> (5 <= length xs)%nat ->
  Forall (fun v => 0.6 < v) xs ->
  isSmiling (detectAll xs d) = true /\
  (isSmiling d = false -> onSmileChange d <> None ->
   In (Some true) (map snd (detectTrace xs d))).
Proof.
  intros Hlen Hlong Hhigh.
  assert (Hend : isSmiling (detectAll xs d) = true).
  { destruct (buffer_after_long_run xs d Hlen Hlong) as [Hbuf Hscore].
    assert (Hmean : 0.6 < smileScore (detectAll xs d)).
    { rewrite Hscore. apply mean_above.
      - intro E. apply (f_equal (@length Q)) in E.
        rewrite lastN_length in E. cbn [length] in E. lia.
      - now apply lastN_keeps. }
    destruct (exists_last (l := xs)) as (ys & x & ->).
    { intros ->. cbn in Hlong. lia. }
    destruct (last_call ys x d) as [Hstep Hfst].
    rewrite <- Hfst in Hmean |- *.
    destruct Hstep as [_ _ A _ | _ A _ _ | A _ B].
    - exact A.
    - unfold resetThreshold in A. lra.
    - rewrite A. destruct (isSmiling (detectAll ys d)); [reflexivity |].
      unfold triggerThreshold in B. lra. }
  split; [exact Hend |].
  intros Hidle Hcb. now apply activation_is_notified.
Qed.

Lemma sustained_smile_activates_witness :
  isSmiling (detectAll [0.7; 0.9; 0.8; 0.7; 1] wiredDetector) = true /\
  In (Some true) (map snd (detectTrace [0.7; 0.9; 0.8; 0.7; 1] wiredDetector)).
Proof.
  assert (Hhigh : Forall (fun v => 0.6 < v) [0.7; 0.9; 0.8; 0.7; 1]).
  { repeat (constructor; [reflexivity |]). constructor. }
  destruct (sustained_smile_activates [0.7; 0.9; 0.8; 0.7; 1] wiredDetector)
    as [A B]; [cbn; lia | cbn; lia | exact Hhigh |].
  split; [exact A |]. apply B; [reflexivity | discriminate].
Defined.

Lemma low_run_ends_idle (xs : list Q) (d : FaceDetector) :
  (length (smileBuffer d) <= 5)%nat -> (5 <= length xs)%nat ->
  Forall (fun v => v < 0.4) xs ->
  isSmiling (detectAll xs d) = false.
Proof.
  intros Hlen Hlong Hlow.
  destruct (buffer_after_long_run xs d Hlen Hlong) as [Hbuf Hscore].
  assert (Hmean : smileScore (detectAll xs d) < 0.4).
  { rewrite Hscore. apply mean_below.
    - intro E. apply (f_equal (@length Q)) in E.
      rewrite lastN_length in E. cbn [length] in E. lia.
    - now apply lastN_keeps. }
  destruct (exists_last (l := xs)) as (ys & x & ->).
  { intros ->. cbn in Hlong. lia. }
  destruct (last_call ys x d) as [Hstep Hfst].
  rewrite <- Hfst in Hmean |- *.
  destruct Hstep as [_ A _ _ | _ _ A _ | A _ B].
  - unfold triggerThreshold in A. lra.
  - exact A.
  - rewrite A. destruct (isSmiling (detectAll ys d)); [| reflexivity].
    unfold resetThreshold in B. lra.
Qed.

(** X4: five or more consecutive samples below 0.4 leave the detector
    Idle, whatever its buffer (of at most 5 values) and state were
    before, and the buffer then holds only samples of that run. *)
Theorem sustained_neutral_deactivates (xs : list Q) (d : FaceDetector) :
  (length (smileBuffer d) <= 5)%nat -> (5 <= length xs)%nat ->
  Forall (fun v => v < 0.4) xs ->
  isSmiling (detectAll xs d) = false /\
  smileBuffer (detectAll xs d) = lastN 5 xs.
Proof.
  intros Hlen Hlong Hlow. split.
  - now apply low_run_ends_idle.
  - now apply buffer_after_long_run.
Qed.

Lemma sustained_neutral_deactivates_witness :
  isSmiling (detectAll [0.3; 0; 0.1; 0.2; 0.39] smilingDetector) = false.
Proof.
  apply (sustained_neutral_deactivates [0.3; 0; 0.1; 0.2; 0.39]
           smilingDetector); [cbn; lia | cbn; lia |].
  repeat (constructor; [reflexivity |]). constructor.
Defined.

(** *** Frames with a face but without the smile categories *)

Lemma lacksSmile_ingests_zero (f : Results) (d : FaceDetector) :
  lacksSmile f -> processResults f d = detectSmile ((0 + 0) / 2) d.
Proof.
  unfold lacksSmile, processResults.
  destruct (faceBlendshapes f) as [[| face others] |]; try contradiction.
  intro H.
  rewrite (getBlendshapeScore_absent (categories face) "mouthSmileLeft"),
    (getBlendshapeScore_absent (categories face) "mouthSmileRight");
    [reflexivity | |];
    (eapply Forall_impl; [| exact H]); now intros b [? ?].
Qed.

Lemma lacksSmile_run (frames : list Results) (d : FaceDetector) :
  Forall lacksSmile frames ->
  processAll frames d = detectAll (map (fun _ => (0 + 0) / 2) frames) d.
Proof.
  intro H. revert d. induction H as [| f frames Hf _ IH]; intro d.
  - reflexivity.
  - change (processAll (f :: frames) d)
      with (processAll frames (fst (processResults f d))).
    rewrite (lacksSmile_ingests_zero f d Hf). apply IH.
Qed.

(** X5: a frame that shows a face but carries neither smile category is
    ingested as the score 0 (unlike a frame without a face, which is not
    ingested at all), so five or more such frames in a row leave the
    detector Idle. *)
Theorem missing_smile_categories_decay_to_idle
    (frames : list Results) (d : FaceDetector) :
  (length (smileBuffer d) <= 5)%nat -> (5 <= length frames)%nat ->
  Forall lacksSmile frames ->
  isSmiling (processAll frames d) = false /\
  Forall (fun v => v == 0) (smileBuffer (processAll frames d)).
Proof.
  intros Hlen Hlong H.
  rewrite (lacksSmile_run frames d H).
  set (zeros := map (fun _ : Results => (0 + 0) / 2) frames).
  assert (Hzeros : Forall (fun v => v == 0) zeros).
  { unfold zeros. apply Forall_map. apply Forall_forall. intros. reflexivity. }
  assert (Hlong' : (5 <= length zeros)%nat)
    by (unfold zeros; now rewrite length_map).
  split.
  - apply low_run_ends_idle; [exact Hlen | exact Hlong' |].
    eapply Forall_impl; [| exact Hzeros]. intros v Hv. rewrite Hv. reflexivity.
  - destruct (buffer_after_long_run zeros d Hlen Hlong') as [-> _].
    now apply lastN_keeps.
Qed.

Lemma missing_smile_categories_decay_to_idle_witness :
  isSmiling (processAll (repeat jawOnlyFrame 5) smilingDetector) = false /\
  isSmiling (processAll (repeat noFace 5) smilingDetector) = true.
Proof.
  split; [| reflexivity].
  apply (missing_smile_categories_decay_to_idle (repeat jawOnlyFrame 5)
           smilingDetector); [cbn; lia | cbn; lia |].
  repeat (constructor;
          [cbn; repeat constructor; discriminate |]).
  constructor.
Defined.

(** *** The detector and the game together *)

Lemma smileSamples_cons (x : Q) (now : Z) (rest : list (Q * Z))
    (s : FaceDetector * Game.FlappyGame) :
  System.smileSamples ((x, now) :: rest) s
  = System.smileSamples rest (System.smileSample x now s).
Proof. reflexivity. Qed.

(** X6: with the game's handler installed, a sample that lifts an Idle
    detector's smoothed score above 0.6 makes exactly the call
    [flap()]; after that, for as long as the smoothed score stays at or
    above 0.4, further samples never reach the game, which is left
    exactly as it was: a held smile requests one flap, not a stream. *)
Theorem held_smile_requests_one_flap
    (x : Q) (now : Z) (d : FaceDetector) (g : Game.FlappyGame)
    (later : list (Q * Z)) :
  onSmileChange d = Some GameFlapCallback ->
  isSmiling d = false ->
  0.6 < smileScore (fst (detectSmile x d)) ->
  let s := System.smileSample x now (d, g) in
  snd s = Game.flap now g /\
  isSmiling (fst s) = true /\
  (Forall (fun r => 0.4 <= smileScore (fst r))
          (detectTrace (map fst later) (fst s)) ->
   snd (System.smileSamples later s) = snd s /\
   isSmiling (fst (System.smileSamples later s)) = true).
Proof.
  intros Hcb Hidle Hhigh s.
  assert (Hcall : snd (detectSmile x d) = Some true).
  { apply rising_iff. rewrite Hcb. repeat split; [discriminate | assumption |].
    exact Hhigh. }
  assert (Hs : s = (fst (detectSmile x d), Game.flap now g)).
  { unfold s, System.smileSample.
    destruct (detectSmile x d) as [d' call]. cbn [fst snd] in *.
    rewrite Hcall, Hcb. reflexivity. }
  assert (Hactive : isSmiling (fst s) = true).
  { rewrite Hs. cbn [fst].
    destruct (detectSmile_step x d) as [_ _ A _ | A _ _ _ | _ B _];
      [exact A | congruence | congruence]. }
  split; [now rewrite Hs |]. split; [exact Hactive |].
  clearbody s. clear Hs Hcall Hhigh Hidle Hcb x d g now.
  destruct s as [d g]. cbn [fst snd] in *.
  revert d g Hactive.
  induction later as [| [y t] later IH]; intros d g Hactive Hstay.
  - split; [reflexivity | exact Hactive].
  - cbn [map fst] in Hstay. rewrite detectTrace_cons in Hstay.
    inversion Hstay as [| r rs Hlo Hrest]; subst.
    rewrite smileSamples_cons.
    assert (Hquiet : snd (detectSmile y d) = None
                     /\ isSmiling (fst (detectSmile y d)) = true).
    { destruct (detectSmile_step y d) as [A _ _ _ | _ A _ _ | A B _].
      - congruence.
      - unfold resetThreshold in A. lra.
      - split; congruence. }
    destruct Hquiet as [Hnone Hstill].
    assert (Hstep : System.smileSample y t (d, g) = (fst (detectSmile y d), g)).
    { unfold System.smileSample.
      destruct (detectSmile y d) as [d' call]. cbn [fst snd] in *.
      now rewrite Hnone. }
    rewrite Hstep. now apply IH.
Qed.

Lemma held_smile_requests_one_flap_witness :
  snd (System.smileSamples [(1, 1700000001000%Z); (0.5, 1700000002000%Z)]
         (System.smileSample 1 1700000000000 (wiredDetector, runningGame)))
  = Game.flap 1700000000000 runningGame.
Proof.
  destruct (held_smile_requests_one_flap 1 1700000000000 wiredDetector
              runningGame [(1, 1700000001000%Z); (0.5, 1700000002000%Z)]
              eq_refl eq_refl eq_refl) as (Hflap & _ & Hlater).
  destruct Hlater as [Hsame _].
  - repeat (constructor; [discriminate |]). constructor.
  - rewrite Hsame. exact Hflap.
Defined.

(** *** The window is never empty *)

(** X7: after any call of [detectSmile], whatever the detector held
    before, the buffer is not empty and ends with the sample just given,
    so the mean is never taken over an empty window; and the buffer has
    not grown beyond 5 entries if it held at most 5 before. *)
Theorem window_holds_newest_sample (x : Q) (d : FaceDetector) :
  let buf := smileBuffer (fst (detectSmile x d)) in
  buf <> [] /\
  last buf 0 = x /\
  0 < inject_Z (Z.of_nat (length buf)) /\
  ((length (smileBuffer d) <= 5)%nat -> (length buf <= 5)%nat).
Proof.
  cbv zeta. rewrite detectSmile_buffer.
  assert (Hne : pushScore (smileBuffer d) x <> []).
  { unfold pushScore.
    destruct (Nat.ltb_spec bufferSize (length (smileBuffer d ++ [x])))
      as [Hfull | Hroom].
    - intro E. apply (f_equal (@length Q)) in E.
      destruct (smileBuffer d ++ [x]) as [| a l]; cbn in *; unfold bufferSize in *;
        lia.
    - intro E. apply app_eq_nil in E. destruct E as [_ E]. discriminate E. }
  split; [exact Hne |]. split; [| split].
  - unfold pushScore in *.
    destruct (bufferSize <? length (smileBuffer d ++ [x]))%nat.
    + destruct (smileBuffer d ++ [x]) as [| a l] eqn:E; [now contradiction Hne |].
      cbn [tl] in *.
      assert (Hlast : last (a :: l) 0 = x) by (rewrite <- E; apply last_last).
      destruct l as [| b l']; [now contradiction Hne |]. exact Hlast.
    + apply last_last.
  - now apply length_number_pos.
  - apply pushScore_length.
Qed.

Lemma window_holds_newest_sample_witness :
  (length (smileBuffer (fst (detectSmile 0.25 smilingDetector))) <= 5)%nat.
Proof.
  apply (window_holds_newest_sample 0.25 smilingDetector). cbn. lia.
Defined.

End DetectorExtras.

(** ** Further facts about the game *)

Module GameExtras.

Import Game Examples GameFacts.

(** *** The obstacle loop as a map and a filter *)

Lemma stepObstacle_spec (o : Obstacle) (sc : Z) :
  stepObstacle o sc
  = (if offScreen (movedObstacle o) then None else Some (movedObstacle o),
     if newlyPassed o then (sc + 10)%Z else sc).
Proof.
  unfold stepObstacle, offScreen, movedObstacle, newlyPassed.
  cbn [x passed gapTop gapBottom id].
  destruct (passed o) eqn:Hp; cbn [negb andb orb].
  - cbn [x]. rewrite <- Hp at 1.
    destruct (Qltb (x o - OBSTACLE_SPEED + OBSTACLE_WIDTH) 0);
      now rewrite ?Hp.
  - destruct (Qltb (x o - OBSTACLE_SPEED + OBSTACLE_WIDTH) BIRD_X);
      cbn [x];
      destruct (Qltb (x o - OBSTACLE_SPEED + OBSTACLE_WIDTH) 0);
      now rewrite ?Hp.
Qed.

Lemma stepObstacles_spec (l : list Obstacle) (sc : Z) :
  stepObstacles l sc
  = (filter (fun o => negb (offScreen o)) (map movedObstacle l),
     (sc + 10 * Z.of_nat (length (filter newlyPassed l)))%Z).
Proof.
  induction l as [| o rest IH].
  - cbn. f_equal. lia.
  - cbn [stepObstacles]. rewrite IH, stepObstacle_spec.
    cbn [map filter].
    destruct (offScreen (movedObstacle o)), (newlyPassed o);
      cbn [negb length]; f_equal; lia.
Qed.

Lemma spawnObstacle_obstacles (rnd : Q) (now : Z) (g : FlappyGame) :
  obstacles (spawnObstacle rnd now g) = obstacles g ++ [spawned rnd now].
Proof. reflexivity. Qed.

(** The obstacle list on which the obstacle loop of [update] runs. *)
Lemma spawnStep_obstacles (rnd : Q) (now : Z) (g : FlappyGame) :
  (obstacles g = []
   /\ obstacles (spawnStep rnd now g) = [spawned rnd now]) \/
  (exists front lastObstacle,
      obstacles g = front ++ [lastObstacle] /\
      SPAWN_DISTANCE < SCREEN_WIDTH - x lastObstacle /\
      obstacles (spawnStep rnd now g) = obstacles g ++ [spawned rnd now]) \/
  (exists front lastObstacle,
      obstacles g = front ++ [lastObstacle] /\
      SCREEN_WIDTH - x lastObstacle <= SPAWN_DISTANCE /\
      obstacles (spawnStep rnd now g) = obstacles g).
Proof.
  unfold spawnStep.
  destruct (rev (obstacles g)) as [| lastObstacle r] eqn:Hrev.
  - left. apply (f_equal (@rev Obstacle)) in Hrev.
    rewrite rev_involutive in Hrev. cbn in Hrev.
    split; [exact Hrev |]. rewrite spawnObstacle_obstacles, Hrev. reflexivity.
  - right.
    assert (Hl : obstacles g = rev r ++ [lastObstacle]).
    { apply (f_equal (@rev Obstacle)) in Hrev.
      now rewrite rev_involutive in Hrev. }
    destruct (Qgtb (SCREEN_WIDTH - x lastObstacle) SPAWN_DISTANCE) eqn:Hc.
    + left. exists (rev r), lastObstacle.
      apply Qgtb_gt in Hc. repeat split; assumption.
    + right. exists (rev r), lastObstacle.
      apply Qgtb_le in Hc. repeat split; assumption.
Qed.

Lemma update_world_fields (rnd : Q) (now : Z) (g : FlappyGame) :
  let l := obstacles (spawnStep rnd now (clampBird (birdPhysics g))) in
  obstacles (update rnd now g)
  = filter (fun o => negb (offScreen o)) (map movedObstacle l) /\
  score (update rnd now g)
  = (score g + 10 * Z.of_nat (length (filter newlyPassed l)))%Z.
Proof.
  intro l.
  assert (Hscore : score (spawnStep rnd now (clampBird (birdPhysics g)))
                   = score g).
  { unfold spawnStep, spawnObstacle, clampBird, birdPhysics.
    repeat match goal with
           | |- context [if ?c then _ else _] => destruct c
           | |- context [match rev ?l with _ => _ end] => destruct (rev l)
           end; reflexivity. }
  unfold update, updateWorld, moveObstacles. fold l.
  rewrite stepObstacles_spec, Hscore.
  match goal with
  | |- context [if ?c then _ else _] => destruct c
  end; split; reflexivity.
Qed.

Lemma spawn_input_obstacles (rnd : Q) (now : Z) (g : FlappyGame) :
  obstacles (clampBird (birdPhysics g)) = obstacles g.
Proof.
  unfold clampBird, birdPhysics.
  repeat match goal with
         | |- context [if ?c then _ else _] => destruct c
         end; reflexivity.
Qed.

(** *** Spacing of the obstacles *)

Lemma spaced_snoc (l : list Obstacle) (n : Obstacle) :
  spaced l -> Forall (fun o => x o + SPAWN_DISTANCE < x n) l ->
  spaced (l ++ [n]).
Proof.
  induction l as [| o rest IH]; intros Hs Hall; cbn [app spaced].
  - split; [constructor | exact I].
  - destruct Hs as [Ho Hrest]. inversion Hall as [| ? ? Hon Hall']; subst.
    split.
    + apply Forall_app. split; [exact Ho | now constructor].
    + now apply IH.
Qed.

Lemma spaced_before_last (front : list Obstacle) (lastObstacle : Obstacle) :
  spaced (front ++ [lastObstacle]) ->
  Forall (fun o => x o + SPAWN_DISTANCE < x lastObstacle) front.
Proof.
  induction front as [| o rest IH]; cbn [app spaced]; intro H.
  - constructor.
  - destruct H as [Ho Hrest]. constructor.
    + apply Forall_app in Ho. destruct Ho as [_ Hl]. now inversion Hl.
    + now apply IH.
Qed.

Lemma spaced_moved (l : list Obstacle) :
  spaced l -> spaced (map movedObstacle l).
Proof.
  induction l as [| o rest IH]; cbn [map spaced]; [trivial |].
  intros [Ho Hrest]. split; [| now apply IH].
  apply Forall_map. eapply Forall_impl; [| exact Ho].
  intros o' H. cbv beta in H. unfold movedObstacle. cbn [x]. lra.
Qed.

Lemma spaced_filter (f : Obstacle -> bool) (l : list Obstacle) :
  spaced l -> spaced (filter f l).
Proof.
  induction l as [| o rest IH]; cbn [filter spaced]; [trivial |].
  intros [Ho Hrest]. destruct (f o); [| now apply IH].
  cbn [spaced]. split; [| now apply IH].
  apply Forall_forall. intros o' Hin.
  apply filter_In in Hin. destruct Hin as [Hin _].
  rewrite Forall_forall in Ho. now apply Ho.
Qed.

(** The list the obstacle loop runs on is ordered when the list before the
    spawn step is. *)
Lemma spawnStep_ordered (rnd : Q) (now : Z) (g : FlappyGame) :
  fieldOrdered 637.5 (obstacles g) ->
  fieldOrdered 640 (obstacles (spawnStep rnd now g)).
Proof.
  intros (Hs & Hr & Hp).
  assert (Hwide : Forall (fun o => - OBSTACLE_WIDTH <= x o <= 640) (obstacles g)).
  { eapply Forall_impl; [| exact Hr]. intros o [? ?]. split; lra. }
  assert (Hnew : (- OBSTACLE_WIDTH <= x (spawned rnd now) <= 640) /\
                 (passed (spawned rnd now) = true
                  <-> behindBird (spawned rnd now))).
  { unfold behindBird. cbn [spawned x passed]. unfold_constants.
    repeat split; try lra; try discriminate. }
  destruct (spawnStep_obstacles rnd now g)
    as [[Hnil ->] | [(front & lastObstacle & Hl & Hfar & ->)
                    | (front & lastObstacle & Hl & Hnear & ->)]].
  - repeat split; cbn [spaced]; try (repeat constructor; apply Hnew).
  - repeat split.
    + apply spaced_snoc; [exact Hs |].
      rewrite Hl in Hs |- *.
      pose proof (spaced_before_last front lastObstacle Hs) as Hfront.
      apply Forall_app. split.
      * eapply Forall_impl; [| exact Hfront].
        intros o Ho. cbn [spawned x]. unfold_constants. lra.
      * constructor; [| constructor].
        cbn [spawned x]. unfold_constants. lra.
    + apply Forall_app. split; [exact Hwide |].
      constructor; [apply Hnew | constructor].
    + apply Forall_app. split; [exact Hp |].
      constructor; [apply Hnew | constructor].
  - repeat split; assumption.
Qed.

Lemma moved_passed_iff (o : Obstacle) :
  (passed o = true <-> behindBird o) ->
  (passed (movedObstacle o) = true <-> behindBird (movedObstacle o)).
Proof.
  unfold behindBird, movedObstacle, newlyPassed. cbn [passed x].
  intros [Hpb Hbp]. rewrite orb_true_iff, andb_true_iff, negb_true_iff.
  rewrite Qltb_lt. unfold_constants. split.
  - intros [Hp | [_ Hlt]]; [| exact Hlt].
    specialize (Hpb Hp). lra.
  - intro Hlt. destruct (passed o); [now left | right]. now split.
Qed.

(** One pass of the obstacle loop keeps the list ordered and within the
    screen. *)
Lemma obstacle_loop_ordered (l : list Obstacle) :
  fieldOrdered 640 l ->
  fieldOrdered 637.5
    (filter (fun o => negb (offScreen o)) (map movedObstacle l)).
Proof.
  intros (Hs & Hr & Hp). repeat split.
  - apply spaced_filter. now apply spaced_moved.
  - apply Forall_forall. intros o Hin.
    apply filter_In in Hin. destruct Hin as [Hin Hon].
    apply in_map_iff in Hin. destruct Hin as (o0 & <- & Hin0).
    rewrite Forall_forall in Hr. specialize (Hr o0 Hin0).
    apply negb_true_iff in Hon. unfold offScreen in Hon.
    apply Qltb_ge in Hon. cbn [movedObstacle x] in *.
    unfold_constants. lra.
  - apply Forall_forall. intros o Hin.
    apply filter_In in Hin. destruct Hin as [Hin _].
    apply in_map_iff in Hin. destruct Hin as (o0 & <- & Hin0).
    rewrite Forall_forall in Hp. apply moved_passed_iff. now apply Hp.
Qed.

Lemma update_ordered (rnd : Q) (now : Z) (g : FlappyGame) :
  fieldOrdered 637.5 (obstacles g) ->
  fieldOrdered 637.5 (obstacles (update rnd now g)).
Proof.
  intro H.
  destruct (update_world_fields rnd now g) as [-> _].
  apply obstacle_loop_ordered, spawnStep_ordered.
  now rewrite (spawn_input_obstacles rnd now g).
Qed.

Lemma flap_obstacles (now : Z) (g : FlappyGame) :
  obstacles (flap now g) = obstacles g /\ score (flap now g) = score g.
Proof.
  destruct (flapAccepted now g) eqn:E.
  - rewrite (flap_accepted now g E). split; reflexivity.
  - rewrite (flap_rejected now g E). split; reflexivity.
Qed.

Lemma play_snoc (acts : list Action) (a : Action) (g : FlappyGame) :
  play (acts ++ [a]) g = act a (play acts g).
Proof. unfold play. now rewrite fold_left_app. Qed.

Lemma play_ordered (acts : list Action) (g0 : FlappyGame) :
  fieldOrdered 637.5 (obstacles (play acts (beginGameplay g0))).
Proof.
  induction acts as [| a acts IH] using rev_ind.
  - cbn. repeat split; constructor.
  - rewrite play_snoc. destruct a as [rnd now | now]; cbn [act].
    + now apply update_ordered.
    + now rewrite (proj1 (flap_obstacles now _)).
Qed.

(** In an ordered field few obstacles fit a narrow window. *)
Lemma spaced_window (lo hi : Q) (f : Obstacle -> bool) (l : list Obstacle) :
  hi <= lo + SPAWN_DISTANCE ->
  (forall o, f o = true -> lo <= x o /\ x o < hi) ->
  spaced l -> (length (filter f l) <= 1)%nat.
Proof.
  intros Hnarrow Hf. induction l as [| o rest IH]; cbn [filter spaced].
  - intros _. cbn. lia.
  - intros [Ho Hrest]. destruct (f o) eqn:Hfo; [| now apply IH].
    assert (Hnone : filter f rest = []).
    { destruct (filter f rest) as [| o' more] eqn:Hfr; [reflexivity |].
      assert (Hin : In o' (filter f rest)) by (rewrite Hfr; now left).
      apply filter_In in Hin. destruct Hin as [Hin Hfo'].
      rewrite Forall_forall in Ho. specialize (Ho o' Hin).
      destruct (Hf o Hfo), (Hf o' Hfo'). lra. }
    rewrite Hnone. cbn. lia.
Qed.

Lemma overlapsBird_window (o : Obstacle) :
  overlapsBird o = true -> 46 <= x o /\ x o < 174.
Proof.
  unfold overlapsBird, safeRight, safeLeft.
  rewrite andb_true_iff, Qgtb_gt, Qltb_lt. intros [Hr Hl].
  split; radius_lra.
Qed.

(** X8: in every state reached from the start of a round by ticks and
    flap requests, each obstacle lies more than 300 to the left of every
    later one in the list, all obstacles lie between -80 and 637.5,
    there are at most 3 of them, and at most one of them overlaps the
    bird's box horizontally. *)
Theorem obstacle_field_spaced_and_bounded
    (acts : list Action) (g0 : FlappyGame) :
  let g := play acts (beginGameplay g0) in
  spaced (obstacles g) /\
  Forall (fun o => -80 <= x o <= 637.5) (obstacles g) /\
  (length (obstacles g) <= 3)%nat /\
  (length (filter overlapsBird (obstacles g)) <= 1)%nat.
Proof.
  intro g. destruct (play_ordered acts g0) as (Hs & Hr & _). fold g in Hs, Hr.
  unfold OBSTACLE_WIDTH in Hr.
  split; [exact Hs |]. split; [exact Hr |]. split.
  - destruct (obstacles g) as [| a [| b [| c [| d rest]]]]; cbn [length];
      try lia.
    exfalso. cbn [spaced] in Hs.
    destruct Hs as (Ha & Hb & Hc & _).
    inversion Ha as [| ? ? Hab _]; subst.
    inversion Hb as [| ? ? Hbc _]; subst.
    inversion Hc as [| ? ? Hcd _]; subst.
    inversion Hr as [| ? ? [Hlow _] Hr']; subst.
    inversion Hr' as [| ? ? _ Hr'']; subst.
    inversion Hr'' as [| ? ? _ Hr3]; subst.
    inversion Hr3 as [| ? ? [_ Hhigh] _]; subst.
    unfold SPAWN_DISTANCE in *. lra.
  - apply (spaced_window 46 174); [unfold SPAWN_DISTANCE; lra | | exact Hs].
    apply overlapsBird_window.
Qed.

Lemma newlyPassed_window (l : list Obstacle) (o : Obstacle) :
  Forall (fun o => passed o = true <-> behindBird o) l -> In o l ->
  newlyPassed o = true -> 70 <= x o /\ x o < 72.5.
Proof.
  intros Hp Hin. rewrite Forall_forall in Hp. specialize (Hp o Hin).
  unfold newlyPassed, behindBird in *.
  rewrite andb_true_iff, negb_true_iff, Qltb_lt. intros [Hnot Hlt].
  assert (Hfront : ~ x o + OBSTACLE_WIDTH < BIRD_X).
  { intro Hb. apply Hp in Hb. congruence. }
  apply Qnot_lt_le in Hfront. unfold_constants. split; lra.
Qed.

Lemma score_step (rnd : Q) (now : Z) (g : FlappyGame) :
  fieldOrdered 637.5 (obstacles g) ->
  score (update rnd now g) = score g
  \/ score (update rnd now g) = (score g + 10)%Z.
Proof.
  intro H.
  destruct (update_world_fields rnd now g) as [_ ->].
  set (l := obstacles (spawnStep rnd now (clampBird (birdPhysics g)))).
  assert (Hl : fieldOrdered 640 l).
  { apply spawnStep_ordered. now rewrite (spawn_input_obstacles rnd now g). }
  destruct Hl as (Hs & _ & Hp).
  assert (Hone : (length (filter newlyPassed l) <= 1)%nat).
  { assert (Hsame : filter newlyPassed l
                    = filter (fun o => newlyPassed o
                                       && Qltb (x o) 72.5
                                       && negb (Qltb (x o) 70)) l).
    { apply filter_ext_in. intros o Hin.
      destruct (newlyPassed o) eqn:Hn; [| reflexivity].
      destruct (newlyPassed_window l o Hp Hin Hn) as [Hlo Hhi].
      apply Qltb_lt in Hhi. apply Qltb_ge in Hlo. now rewrite Hhi, Hlo. }
    rewrite Hsame.
    apply (spaced_window 70 72.5); [unfold SPAWN_DISTANCE; lra | | exact Hs].
    intros o Ho. rewrite !andb_true_iff, negb_true_iff in Ho.
    destruct Ho as [[_ Hhi] Hlo].
    apply Qltb_lt in Hhi. apply Qltb_ge in Hlo. now split. }
  destruct (length (filter newlyPassed l)) as [| [| n]]; [left | right |];
    lia.
Qed.

Lemma play_score_multiple (acts : list Action) (g0 : FlappyGame) :
  exists k : Z, (0 <= k)%Z /\ score (play acts (beginGameplay g0)) = (10 * k)%Z.
Proof.
  induction acts as [| a acts IH] using rev_ind.
  - exists 0%Z. split; [lia | reflexivity].
  - rewrite play_snoc. destruct IH as (k & Hk & Hscore).
    destruct a as [rnd now | now]; cbn [act].
    + destruct (update_world_fields rnd now (play acts (beginGameplay g0)))
        as [_ ->].
      rewrite Hscore.
      match goal with
      | |- context [Z.of_nat ?n] => exists (k + Z.of_nat n)%Z
      end. split; lia.
    + exists k. split; [exact Hk |].
      now rewrite (proj2 (flap_obstacles now _)).
Qed.

(** X9: in every state reached from the start of a round by ticks and
    flap requests, an obstacle is marked [passed] exactly when its
    trailing edge is left of the bird; the score is a non-negative
    multiple of 10; and one more tick leaves the score as it is or adds
    exactly 10. *)
Theorem score_counts_each_obstacle_once
    (acts : list Action) (g0 : FlappyGame) :
  let g := play acts (beginGameplay g0) in
  Forall (fun o => passed o = true <-> x o + 80 < 150) (obstacles g) /\
  (exists k : Z, (0 <= k)%Z /\ score g = (10 * k)%Z) /\
  (forall rnd now,
      score (update rnd now g) = score g
      \/ score (update rnd now g) = (score g + 10)%Z).
Proof.
  intro g. pose proof (play_ordered acts g0) as Hord. fold g in Hord.
  split; [apply Hord |]. split; [apply play_score_multiple |].
  intros rnd now. now apply score_step.
Qed.

(** *** Where the gaps are *)





(** *** Collision in numbers *)

Lemma outOfScreen_iff (g : FlappyGame) :
  outOfScreen g = true <-> birdY g < 24 \/ 456 < birdY g.
Proof.
  unfold outOfScreen, safeTop, safeBottom.
  rewrite orb_true_iff, Qltb_lt, Qgtb_gt.
  split; (intros [H | H]; [left | right]); radius_lra.
Qed.



(** *** The loop after the end of a round *)

Lemma update_keeps_gameOver (rnd : Q) (now : Z) (g : FlappyGame) :
  gameOver g = true -> gameOver (update rnd now g) = true.
Proof.
  intro H.
  assert (Hclamp : gameOver (clampBird (birdPhysics g)) = true).
  { unfold clampBird, birdPhysics.
    repeat match goal with
           | |- context [if ?c then _ else _] => destruct c
           end; cbn; first [reflexivity | assumption]. }
  destruct (updateWorld_bird rnd now g) as (_ & _ & Hover).
  unfold update.
  destruct (checkCollision (updateWorld rnd now g)); [reflexivity |].
  now rewrite Hover.
Qed.

Lemma gameLoop_not_started (currentTime rnd : Q) (now : Z) (g : FlappyGame) :
  gameStarted g = false -> gameLoop currentTime rnd now g = g.
Proof. intro H. unfold gameLoop. now rewrite H. Qed.

Lemma handleGameOver_stops (g : FlappyGame) :
  gameStarted (handleGameOver g) = false.
Proof. apply handleGameOver_fields. Qed.

Lemma update_keeps_gameStarted (rnd : Q) (now : Z) (g : FlappyGame) :
  gameStarted (update rnd now g) = gameStarted g.
Proof.
  unfold update, updateWorld, moveObstacles, spawnStep, clampBird, birdPhysics,
    spawnObstacle.
  repeat match goal with
         | |- context [if ?c then _ else _] => destruct c
         | |- context [match rev ?l with _ => _ end] => destruct (rev l)
         | |- context [let '(_, _) := ?p in _] => destruct p
         end; reflexivity.
Qed.

(** What a frame does, by the three ways through [gameLoop] once the
    game is started. *)
Lemma gameLoop_cases (currentTime rnd : Q) (now : Z) (g : FlappyGame) :
  gameStarted g = true ->
  (currentTime - lastGameLoopTime g < 1000 / 30 /\
   gameLoop currentTime rnd now g
   = set_animationId true (emit RequestAnimationFrame g)) \/
  (1000 / 30 <= currentTime - lastGameLoopTime g /\
   gameOver (update rnd now (set_lastGameLoopTime currentTime g)) = true /\
   gameLoop currentTime rnd now g
   = handleGameOver (update rnd now (set_lastGameLoopTime currentTime g))) \/
  (1000 / 30 <= currentTime - lastGameLoopTime g /\
   gameOver (update rnd now (set_lastGameLoopTime currentTime g)) = false /\
   gameLoop currentTime rnd now g
   = set_animationId true
       (emit RequestAnimationFrame
          (update rnd now (set_lastGameLoopTime currentTime g)))).
Proof.
  intro Hs. unfold gameLoop. rewrite Hs. cbn [negb]. cbv zeta.
  destruct (Qltb (currentTime - lastGameLoopTime g) (1000 / 30)) eqn:Ht.
  - left. apply Qltb_lt in Ht. now split.
  - right. apply Qltb_ge in Ht.
    destruct (gameOver (update rnd now (set_lastGameLoopTime currentTime g)))
      eqn:Ho; [left | right]; repeat split; assumption.
Qed.

(** Requesting the next frame touches only the request id and the list
    of calls made. *)
Lemma reschedule_fields (h : FlappyGame) :
  let h' := set_animationId true (emit RequestAnimationFrame h) in
  gameOver h' = gameOver h /\ gameStarted h' = gameStarted h /\
  lastGameLoopTime h' = lastGameLoopTime h /\
  birdY h' = birdY h /\ birdVelocity h' = birdVelocity h /\
  obstacles h' = obstacles h /\ score h' = score h.
Proof. repeat split. Qed.

Lemma update_keeps_lastGameLoopTime (rnd : Q) (now : Z) (g : FlappyGame) :
  lastGameLoopTime (update rnd now g) = lastGameLoopTime g.
Proof.
  unfold update, updateWorld, moveObstacles, spawnStep, clampBird, birdPhysics,
    spawnObstacle.
  repeat match goal with
         | |- context [if ?c then _ else _] => destruct c
         | |- context [match rev ?l with _ => _ end] => destruct (rev l)
         | |- context [let '(_, _) := ?p in _] => destruct p
         end; reflexivity.
Qed.

Lemma handleGameOver_keeps_gameOver (h : FlappyGame) :
  gameOver (handleGameOver h) = gameOver h.
Proof.
  unfold handleGameOver, showCTAScreen. cbv zeta.
  repeat match goal with
         | |- context [if ?c then _ else _] => destruct c
         end; reflexivity.
Qed.

(** X12: a frame that turns a started, running game into one whose
    terminal flag is set has run [handleGameOver]; the game is then no
    longer started, and every later frame and every later flap request
    leaves it exactly as it is, so the round's score is folded into the
    best score once. *)
Theorem round_end_stops_the_loop
    (currentTime rnd : Q) (now : Z) (g : FlappyGame) :
  gameStarted g = true -> gameOver g = false ->
  gameOver (gameLoop currentTime rnd now g) = true ->
  let ended := gameLoop currentTime rnd now g in
  ended = handleGameOver (update rnd now (set_lastGameLoopTime currentTime g)) /\
  gameStarted ended = false /\
  (forall currentTime' rnd' now',
      gameLoop currentTime' rnd' now' ended = ended) /\
  (forall now', flap now' ended = ended).
Proof.
  intros Hs Hrun Hover. cbv zeta.
  remember (gameLoop currentTime rnd now g) as ended eqn:Hdef.
  assert (Hended : ended = handleGameOver
                     (update rnd now (set_lastGameLoopTime currentTime g))).
  { destruct (gameLoop_cases currentTime rnd now g Hs)
      as [[_ E] | [(_ & _ & E) | (_ & Hno & E)]].
    - rewrite Hdef, E in Hover.
      rewrite (proj1 (reschedule_fields g)) in Hover. congruence.
    - now rewrite Hdef.
    - rewrite Hdef, E in Hover.
      rewrite (proj1 (reschedule_fields _)) in Hover. congruence. }
  clear Hdef.
  assert (Hstop : gameStarted ended = false)
    by (rewrite Hended; apply handleGameOver_stops).
  split; [exact Hended |]. split; [exact Hstop |]. split.
  - intros. now apply gameLoop_not_started.
  - intro now'. apply flap_rejected. unfold flapAccepted. now rewrite Hstop.
Qed.

Lemma round_end_stops_the_loop_witness :
  gameLoop 80 (1 # 3) 1700000000050
    (gameLoop 40 (1 # 2) 1700000000000 fallingGame)
  = gameLoop 40 (1 # 2) 1700000000000 fallingGame.
Proof.
  destruct (round_end_stops_the_loop 40 (1 # 2) 1700000000000 fallingGame
              eq_refl eq_refl eq_refl) as (_ & _ & H & _).
  apply H.
Defined.

(** X13: after a frame at time [t] that ran the physics and left the
    round running, a frame less than 1000/30 ms later runs no physics:
    bird, obstacles, score, flags and the recorded frame time are
    unchanged, and only a new frame is requested. *)
Theorem frames_closer_than_a_thirtieth_are_skipped
    (t t' rnd rnd' : Q) (now now' : Z) (g : FlappyGame) :
  gameStarted g = true ->
  1000 / 30 <= t - lastGameLoopTime g ->
  gameOver (gameLoop t rnd now g) = false ->
  t' - t < 1000 / 30 ->
  let g1 := gameLoop t rnd now g in
  let g2 := gameLoop t' rnd' now' g1 in
  lastGameLoopTime g1 = t /\
  g2 = set_animationId true (emit RequestAnimationFrame g1) /\
  birdY g2 = birdY g1 /\ birdVelocity g2 = birdVelocity g1 /\
  obstacles g2 = obstacles g1 /\ score g2 = score g1 /\
  gameOver g2 = gameOver g1 /\ lastGameLoopTime g2 = t.
Proof.
  intros Hs Hdue Hrun Hsoon. cbv zeta.
  remember (gameLoop t rnd now g) as g1 eqn:Hdef1.
  remember (gameLoop t' rnd' now' g1) as g2 eqn:Hdef2.
  assert (Hg1 : g1 = set_animationId true
                       (emit RequestAnimationFrame
                          (update rnd now (set_lastGameLoopTime t g)))).
  { destruct (gameLoop_cases t rnd now g Hs)
      as [[Hlt _] | [(_ & Hyes & E) | (_ & _ & E)]].
    - exfalso. exact (Qlt_not_le _ _ Hlt Hdue).
    - rewrite Hdef1, E, handleGameOver_keeps_gameOver in Hrun. congruence.
    - now rewrite Hdef1. }
  clear Hdef1.
  assert (Hlast : lastGameLoopTime g1 = t).
  { rewrite Hg1, (proj1 (proj2 (proj2 (reschedule_fields _)))).
    now rewrite update_keeps_lastGameLoopTime. }
  assert (Hstarted : gameStarted g1 = true).
  { rewrite Hg1, (proj1 (proj2 (reschedule_fields _))).
    now rewrite update_keeps_gameStarted. }
  assert (Hg2 : g2 = set_animationId true (emit RequestAnimationFrame g1)).
  { destruct (gameLoop_cases t' rnd' now' g1 Hstarted)
      as [[_ E] | [(Hge & _ & _) | (Hge & _ & _)]];
      [now rewrite Hdef2 | |]; rewrite Hlast in Hge;
      exfalso; exact (Qlt_not_le _ _ Hsoon Hge). }
  clear Hdef2.
  split; [exact Hlast |]. split; [exact Hg2 |].
  destruct (reschedule_fields g1) as (Ho & _ & Ht & Hy & Hv & Hobs & Hsc).
  rewrite Hg2. repeat split; assumption.
Qed.

Lemma frames_closer_than_a_thirtieth_are_skipped_witness :
  birdY (gameLoop 60 (1 # 3) 1700000000020
           (gameLoop 40 (1 # 2) 1700000000000 runningGame))
  = birdY (gameLoop 40 (1 # 2) 1700000000000 runningGame).
Proof.
  destruct (frames_closer_than_a_thirtieth_are_skipped
              40 60 (1 # 2) (1 # 3) 1700000000000 1700000000020 runningGame)
    as (_ & _ & H & _); [reflexivity | | reflexivity | reflexivity | exact H].
  vm_compute. discriminate.
Defined.

(** *** Falling without a flap *)

Lemma birdPhysics_fields (g : FlappyGame) :
  let fallen :=
    if Qgtb (birdVelocity g + GRAVITY) 10 then 10
    else birdVelocity g + GRAVITY in
  birdVelocity (birdPhysics g) = fallen /\
  birdY (birdPhysics g) = birdY g + fallen /\
  gameOver (birdPhysics g) = gameOver g.
Proof.
  unfold birdPhysics.
  cbn [set_birdVelocity set_birdY birdVelocity birdY].
  destruct (Qgtb (birdVelocity g + GRAVITY) 10); repeat split.
Qed.


(** The terminal flag after a tick: the one the clamp left, or an
    obstacle hit. *)
Lemma update_gameOver (rnd : Q) (now : Z) (g : FlappyGame) :
  gameOver (update rnd now g)
  = gameOver (clampBird (birdPhysics g))
    || existsb (hitsObstacle (updateWorld rnd now g))
               (obstacles (updateWorld rnd now g)).
Proof.
  destruct (updateWorld_bird rnd now g) as (_ & Hy & Hover).
  pose proof (clampBird_range (birdPhysics g)) as [Hlo Hhi].
  rewrite <- Hy in Hlo, Hhi.
  assert (Hout : outOfScreen (updateWorld rnd now g) = false).
  { destruct (outOfScreen (updateWorld rnd now g)) eqn:E; [| reflexivity].
    apply outOfScreen_iff in E. exfalso. destruct E; radius_lra. }
  unfold update, checkCollision. rewrite Hout, <- Hover.
  destruct (existsb _ _); cbn [set_gameOver gameOver].
  - now rewrite orb_true_r.
  - now rewrite orb_false_r.
Qed.








(** *** Once the terminal flag is set *)

(** X15: once the terminal flag is set, no sequence of ticks and flap
    requests clears it, and none of those flap requests is accepted: the
    velocity is never set by a flap again and the last-flap time stays
    what it was. *)
Theorem terminal_flag_is_sticky (acts : list Action) (g : FlappyGame) :
  gameOver g = true ->
  gameOver (play acts g) = true /\
  lastFlapTime (play acts g) = lastFlapTime g /\
  Forall (fun a => forall h, gameOver h = true -> isTick a = false ->
                             act a h = h) acts.
Proof.
  intro H. split; [| split].
  - revert g H. induction acts as [| a acts IH]; intros g H; [exact H |].
    change (play (a :: acts) g) with (play acts (act a g)). apply IH.
    destruct a as [rnd now | now]; cbn [act].
    + now apply update_keeps_gameOver.
    + rewrite flap_rejected; [exact H |].
      unfold flapAccepted. rewrite H. cbn [negb]. now rewrite andb_false_r.
  - revert g H. induction acts as [| a acts IH]; intros g H; [reflexivity |].
    change (play (a :: acts) g) with (play acts (act a g)).
    destruct a as [rnd now | now]; cbn [act].
    + rewrite IH by now apply update_keeps_gameOver.
      apply update_keeps_lastFlapTime.
    + rewrite flap_rejected; [now apply IH |].
      unfold flapAccepted. rewrite H. cbn [negb]. now rewrite andb_false_r.
  - apply Forall_forall. intros a _ h Hh Ha.
    destruct a as [rnd now | now]; [discriminate Ha |]. cbn [act].
    apply flap_rejected. unfold flapAccepted. rewrite Hh. cbn [negb].
    now rewrite andb_false_r.
Qed.

Lemma terminal_flag_is_sticky_witness :
  gameOver (play [Flap 1700000009000; Tick (1 # 2) 1700000009033]
              finalRoundOverGame) = true.
Proof.
  apply (terminal_flag_is_sticky
           [Flap 1700000009000; Tick (1 # 2) 1700000009033]
           finalRoundOverGame eq_refl).
Defined.

(** *** The ceiling *)

(** X16: a tick that would carry the bird above the ceiling line (less
    than 30) puts it on the line with velocity 0 and does not by itself
    end the round: the terminal flag after the tick is the one before it
    or an obstacle hit. *)
Theorem ceiling_stops_the_bird_without_ending_the_round
    (rnd : Q) (now : Z) (g : FlappyGame) :
  birdY (birdPhysics g) < 30 ->
  birdY (update rnd now g) = BIRD_SIZE / 2 /\
  birdVelocity (update rnd now g) = 0 /\
  gameOver (update rnd now g)
  = gameOver g
    || existsb (hitsObstacle (updateWorld rnd now g))
               (obstacles (updateWorld rnd now g)).
Proof.
  intro Hhigh.
  assert (Hclamp : clampBird (birdPhysics g)
                   = set_birdVelocity 0 (set_birdY (BIRD_SIZE / 2)
                                           (birdPhysics g))).
  { unfold clampBird. cbv zeta.
    assert (E : Qltb (birdY (birdPhysics g)) (BIRD_SIZE / 2) = true)
      by (apply Qltb_lt; radius_lra).
    rewrite E. cbn [set_birdVelocity set_birdY birdY]. reflexivity. }
  destruct (update_bird rnd now g) as (Hv & Hy).
  destruct (birdPhysics_fields g) as (_ & _ & Ho).
  rewrite Hv, Hy, update_gameOver, Hclamp.
  set (hit := existsb _ _). clearbody hit.
  revert Ho. generalize (birdPhysics g). intros h Ho.
  cbn [set_birdVelocity set_birdY birdY birdVelocity gameOver].
  rewrite Ho. repeat split.
Qed.

Lemma ceiling_stops_the_bird_without_ending_the_round_witness :
  birdVelocity (update (1 # 2) 1700000000000 risingGame) = 0 /\
  gameOver (update (1 # 2) 1700000000000 risingGame) = false.
Proof.
  destruct (ceiling_stops_the_bird_without_ending_the_round
              (1 # 2) 1700000000000 risingGame) as (_ & Hv & Ho).
  - reflexivity.
  - split; [exact Hv |]. rewrite Ho. reflexivity.
Defined.

End GameExtras.

(** ** Facts about rounds, the countdown and quitting *)

Module PageFacts.

Import Game Page Examples PageExamples GameFacts GameExtras.

(** One callback of the only live timer, which is the one recorded in
    [countdownInterval]. *)
Lemma countdown_callback (p : GamePage) (id : positive) (c : Z) :
  intervals p = [{| intervalId := id; count := c |}] ->
  countdownInterval p = Some id ->
  intervalFires id p
  = if (c - 1 >? 0)%Z
    then {| game := game p;
            countdownOverlayHidden := countdownOverlayHidden p;
            countdownInterval := Some id;
            intervals := [{| intervalId := id; count := (c - 1)%Z |}];
            nextIntervalId := nextIntervalId p |}
    else {| game := if negb (gameOver (game p)) then beginGameplay (game p)
                    else game p;
            countdownOverlayHidden := true;
            countdownInterval := Some id;
            intervals := [];
            nextIntervalId := nextIntervalId p |}.
Proof.
  intros Hl Hc. unfold intervalFires. rewrite Hl, Hc.
  cbn [find intervalId map count clearInterval].
  rewrite Pos.eqb_refl. cbn [count].
  destruct (c - 1 >? 0)%Z; [reflexivity |].
  cbn [filter intervalId]. rewrite Pos.eqb_refl. reflexivity.
Qed.

Lemma no_timer_no_callback (p : GamePage) (id : positive) :
  intervals p = [] -> intervalFires id p = p.
Proof. intro H. unfold intervalFires. now rewrite H. Qed.

(** X17: when no timer is live, [startCountdown] shows the overlay and
    starts one; its first two callbacks leave the game as it is, and the
    third hides the overlay, stops the timer and runs [beginGameplay],
    unless the terminal flag is set, in which case the game is left as it
    is.  After that no timer callback changes anything. *)
Theorem countdown_begins_on_third_callback (p : GamePage) :
  intervals p = [] ->
  let id := nextIntervalId p in
  let p0 := startCountdown p in
  let p1 := intervalFires id p0 in
  let p2 := intervalFires id p1 in
  let p3 := intervalFires id p2 in
  countdownOverlayHidden p0 = false /\
  game p1 = game p /\ countdownOverlayHidden p1 = false /\
  game p2 = game p /\ countdownOverlayHidden p2 = false /\
  game p3 = (if gameOver (game p) then game p else beginGameplay (game p)) /\
  countdownOverlayHidden p3 = true /\
  intervals p3 = [] /\
  (forall id', intervalFires id' p3 = p3).
Proof.
  intro Hnil. cbv zeta.
  set (id := nextIntervalId p).
  assert (H0 : intervals (startCountdown p) = [{| intervalId := id; count := 3 |}]).
  { unfold startCountdown. cbn [intervals]. now rewrite Hnil. }
  pose proof (countdown_callback (startCountdown p) id 3 H0 eq_refl) as E1.
  cbn [Z.gtb Z.sub Z.compare Z.add Z.opp Z.pos_sub Pos.pred_double
       Pos.compare Pos.compare_cont] in E1.
  rewrite E1.
  match type of E1 with _ = ?q => set (p1 := q) in * end.
  pose proof (countdown_callback p1 id 2 eq_refl eq_refl) as E2.
  cbn [Z.gtb Z.sub Z.compare Z.add Z.opp Z.pos_sub Pos.pred_double
       Pos.compare Pos.compare_cont] in E2.
  rewrite E2.
  match type of E2 with _ = ?q => set (p2 := q) in * end.
  pose proof (countdown_callback p2 id 1 eq_refl eq_refl) as E3.
  cbn [Z.gtb Z.sub Z.compare Z.add Z.opp Z.pos_sub Pos.pred_double
       Pos.compare Pos.compare_cont] in E3.
  rewrite E3.
  match type of E3 with _ = ?q => set (p3 := q) in * end.
  repeat split.
  cbn. now destruct (gameOver (game p)).
Qed.

Lemma countdown_begins_on_third_callback_witness :
  game (intervalFires 1
          (intervalFires 1 (intervalFires 1 (startCountdown readyPage))))
  = beginGameplay constructedGame.
Proof.
  destruct (countdown_begins_on_third_callback readyPage eq_refl)
    as (_ & _ & _ & _ & _ & H & _).
  exact H.
Defined.

(** *** What the session counters do *)

Lemma update_keeps_session (rnd : Q) (now : Z) (g : FlappyGame) :
  bestScore (update rnd now g) = bestScore g /\
  currentRound (update rnd now g) = currentRound g.
Proof.
  unfold update, updateWorld, moveObstacles, spawnStep, clampBird, birdPhysics,
    spawnObstacle.
  repeat match goal with
         | |- context [if ?c then _ else _] => destruct c
         | |- context [match rev ?l with _ => _ end] => destruct (rev l)
         | |- context [let '(_, _) := ?p in _] => destruct p
         end; split; reflexivity.
Qed.

Lemma reschedule_session (h : FlappyGame) :
  bestScore (set_animationId true (emit RequestAnimationFrame h))
  = bestScore h /\
  currentRound (set_animationId true (emit RequestAnimationFrame h))
  = currentRound h.
Proof. split; reflexivity. Qed.

Lemma gameLoop_session (currentTime rnd : Q) (now : Z) (g : FlappyGame) :
  (bestScore g <= bestScore (gameLoop currentTime rnd now g))%Z /\
  currentRound (gameLoop currentTime rnd now g) = currentRound g.
Proof.
  destruct (gameStarted g) eqn:Hs.
  - destruct (gameLoop_cases currentTime rnd now g Hs)
      as [[_ ->] | [(_ & _ & ->) | (_ & _ & ->)]].
    + destruct (reschedule_session g) as [-> ->]. split; [lia | reflexivity].
    + destruct (handleGameOver_fields
                  (update rnd now (set_lastGameLoopTime currentTime g)))
        as (Hb & _ & Hr & _).
      destruct (update_keeps_session rnd now
                  (set_lastGameLoopTime currentTime g)) as [Hub Hur].
      rewrite Hb, Hr, Hub, Hur.
      cbn [set_lastGameLoopTime bestScore currentRound score].
      split; [lia | reflexivity].
    + destruct (update_keeps_session rnd now
                  (set_lastGameLoopTime currentTime g)) as [Hub Hur].
      destruct (reschedule_session
                  (update rnd now (set_lastGameLoopTime currentTime g)))
        as [-> ->].
      rewrite Hub, Hur.
      cbn [set_lastGameLoopTime bestScore currentRound].
      split; [lia | reflexivity].
  - rewrite gameLoop_not_started by exact Hs. split; [lia | reflexivity].
Qed.

Lemma flap_session (now : Z) (g : FlappyGame) :
  bestScore (flap now g) = bestScore g /\
  currentRound (flap now g) = currentRound g.
Proof.
  destruct (flapAccepted now g) eqn:E.
  - rewrite (flap_accepted now g E). split; reflexivity.
  - rewrite (flap_rejected now g E). split; reflexivity.
Qed.

(** A timer callback leaves the game alone or begins the gameplay. *)
Lemma intervalFires_game (id : positive) (p : GamePage) :
  game (intervalFires id p) = game p \/
  (gameOver (game p) = false /\
   game (intervalFires id p) = beginGameplay (game p)).
Proof.
  unfold intervalFires.
  destruct (find _ (intervals p)) as [t |]; [| now left].
  destruct (count t - 1 >? 0)%Z; [now left |].
  cbn [game]. destruct (gameOver (game p)); [now left | right].
  now split.
Qed.

Lemma quitGame_fields (p : GamePage) :
  let g := game (quitGame p) in
  gameStarted g = false /\ gameOver g = true /\
  birdY g = birdY (game p) /\ birdVelocity g = birdVelocity (game p) /\
  obstacles g = obstacles (game p) /\ score g = score (game p) /\
  bestScore g = bestScore (game p) /\
  currentRound g = currentRound (game p) /\
  ctaScreenActive g = true /\ gameScreenActive g = false.
Proof.
  unfold quitGame. cbv zeta. cbn [game].
  destruct (game p) as [y v obs sc st ov lf cr bs an lt fd gs cs ro ef].
  destruct an, fd; repeat split.
Qed.

Lemma startNextRound_fields (p : GamePage) :
  let g := game (startNextRound p) in
  gameStarted g = false /\ gameOver g = false /\
  score g = 0%Z /\ obstacles g = [] /\
  birdY g = SCREEN_HEIGHT / 2 /\ birdVelocity g = 0 /\
  roundOverOverlayHidden g = true /\
  bestScore g = bestScore (game p) /\
  currentRound g = (currentRound (game p) + 1)%Z /\
  lastFlapTime g = lastFlapTime (game p).
Proof.
  unfold startNextRound, startCountdown. cbv zeta. cbn [game].
  destruct (game p) as [y v obs sc st ov lf cr bs an lt fd gs cs ro ef].
  destruct an; repeat split.
Qed.

Lemma pageStep_session (e : PageEvent) (p : GamePage) :
  (bestScore (game p) <= bestScore (game (pageStep e p)))%Z /\
  currentRound (game (pageStep e p))
  = (currentRound (game p) + (if keepsRound e then 0 else 1))%Z.
Proof.
  destruct e as [t rnd now | now | id | |]; cbn [pageStep keepsRound].
  - cbn [onGame game].
    destruct (gameLoop_session t rnd now (game p)) as [Hb ->]. split; lia.
  - cbn [onGame game].
    destruct (flap_session now (game p)) as [-> ->]. split; lia.
  - destruct (intervalFires_game id p) as [-> | [_ ->]];
      cbn; split; lia.
  - destruct (startNextRound_fields p) as (_ & _ & _ & _ & _ & _ & _ & -> & -> & _).
    split; lia.
  - destruct (quitGame_fields p) as (_ & _ & _ & _ & _ & _ & -> & -> & _).
    split; lia.
Qed.

Lemma pageRun_snoc (es : list PageEvent) (e : PageEvent) (p : GamePage) :
  pageRun (es ++ [e]) p = pageStep e (pageRun es p).
Proof. unfold pageRun. now rewrite fold_left_app. Qed.

(** X18: over any sequence of frames, flap requests, timer callbacks,
    next-round clicks and quits, the best score never decreases, and the
    round counter grows by exactly one per next-round click and changes
    in no other way; nothing bounds it by [maxRounds]. *)
Theorem session_counters_only_grow (es : list PageEvent) (p : GamePage) :
  (bestScore (game p) <= bestScore (game (pageRun es p)))%Z /\
  currentRound (game (pageRun es p))
  = (currentRound (game p) + nextRoundClicks es)%Z.
Proof.
  induction es as [| e es IH] using rev_ind.
  - cbn. split; lia.
  - rewrite pageRun_snoc.
    destruct (pageStep_session e (pageRun es p)) as [Hb Hr].
    destruct IH as [IHb IHr]. split; [lia |].
    rewrite Hr, IHr. unfold nextRoundClicks.
    rewrite filter_app, length_app. cbn [filter].
    destruct (keepsRound e); cbn [negb length]; lia.
Qed.

(** *** Quitting *)

Lemma quit_state_step (e : PageEvent) (p : GamePage) :
  keepsRound e = true ->
  gameStarted (game p) = false -> gameOver (game p) = true ->
  let g := game (pageStep e p) in
  gameStarted g = false /\ gameOver g = true /\
  birdY g = birdY (game p) /\ birdVelocity g = birdVelocity (game p) /\
  obstacles g = obstacles (game p) /\ score g = score (game p).
Proof.
  intros He Hs Ho. cbv zeta.
  destruct e as [t rnd now | now | id | |]; cbn [pageStep]; try discriminate.
  - cbn [onGame game]. rewrite gameLoop_not_started by exact Hs.
    repeat split; assumption.
  - cbn [onGame game]. rewrite flap_rejected.
    + repeat split; assumption.
    + unfold flapAccepted. now rewrite Hs.
  - destruct (intervalFires_game id p) as [-> | [Hno _]];
      [repeat split; assumption | congruence].
  - destruct (quitGame_fields p) as (A & B & C & D & E & F & _).
    repeat split; assumption.
Qed.

(** X19: after [quitGame], no sequence of frames, flap requests, timer
    callbacks and further quits starts the gameplay: the game stays not
    started with its terminal flag set, and bird, obstacles and score
    stay as they were when the player quit.  In particular a countdown
    that is still pending when the player quits never begins a round. *)
Theorem quit_blocks_gameplay (es : list PageEvent) (p : GamePage) :
  forallb keepsRound es = true ->
  let q := pageRun es (quitGame p) in
  gameStarted (game q) = false /\ gameOver (game q) = true /\
  birdY (game q) = birdY (game p) /\
  birdVelocity (game q) = birdVelocity (game p) /\
  obstacles (game q) = obstacles (game p) /\
  score (game q) = score (game p).
Proof.
  intro Hes. cbv zeta.
  induction es as [| e es IH] using rev_ind.
  - destruct (quitGame_fields p) as (A & B & C & D & E & F & _).
    repeat split; assumption.
  - rewrite forallb_app in Hes. apply andb_prop in Hes.
    destruct Hes as [Hes He]. cbn [forallb] in He.
    rewrite andb_true_r in He.
    destruct (IH Hes) as (A & B & C & D & E & F).
    rewrite pageRun_snoc.
    destruct (quit_state_step e (pageRun es (quitGame p)) He A B)
      as (A' & B' & C' & D' & E' & F').
    repeat split; congruence.
Qed.

Lemma quit_blocks_gameplay_witness :
  gameStarted
    (game (pageRun [TimerFires 1; TimerFires 1; TimerFires 1;
                    AnimationFrame 4000 (1 # 2) 1700000004000;
                    SmileFlap 1700000004100]
             (quitGame (startCountdown readyPage)))) = false.
Proof.
  apply (quit_blocks_gameplay
           [TimerFires 1; TimerFires 1; TimerFires 1;
            AnimationFrame 4000 (1 # 2) 1700000004000;
            SmileFlap 1700000004100]
           (startCountdown readyPage) eq_refl).
Defined.

(** *** From one round to the next *)

Lemma beginGameplay_fields (h : FlappyGame) :
  gameStarted (beginGameplay h) = true /\
  gameOver (beginGameplay h) = false /\
  birdY (beginGameplay h) = SCREEN_HEIGHT / 2 /\
  birdVelocity (beginGameplay h) = 0 /\
  obstacles (beginGameplay h) = [] /\
  score (beginGameplay h) = 0%Z /\
  currentRound (beginGameplay h) = currentRound h /\
  bestScore (beginGameplay h) = bestScore h /\
  lastFlapTime (beginGameplay h) = lastFlapTime h /\
  roundOverOverlayHidden (beginGameplay h) = roundOverOverlayHidden h.
Proof. repeat split. Qed.

(** X20: with no timer live, a click on the next-round button followed
    by the three callbacks of the countdown it starts leaves a started
    game with its round state fresh (bird at mid-height with velocity 0,
    no obstacles, score 0, terminal flag clear), the round counter one
    higher, the best score and the last-flap time as they were, the
    round-over overlay hidden and no timer live. *)
Theorem next_round_starts_fresh (p : GamePage) :
  intervals p = [] ->
  let id := nextIntervalId p in
  let q := pageRun [NextRoundClick; TimerFires id; TimerFires id;
                    TimerFires id] p in
  gameStarted (game q) = true /\ gameOver (game q) = false /\
  birdY (game q) = SCREEN_HEIGHT / 2 /\ birdVelocity (game q) = 0 /\
  obstacles (game q) = [] /\ score (game q) = 0%Z /\
  currentRound (game q) = (currentRound (game p) + 1)%Z /\
  bestScore (game q) = bestScore (game p) /\
  lastFlapTime (game q) = lastFlapTime (game p) /\
  roundOverOverlayHidden (game q) = true /\
  countdownOverlayHidden q = true /\ intervals q = [].
Proof.
  intro Hnil. cbv zeta.
  set (id := nextIntervalId p).
  change (pageRun [NextRoundClick; TimerFires id; TimerFires id; TimerFires id] p)
    with (intervalFires id
            (intervalFires id (intervalFires id (startNextRound p)))).
  destruct (startNextRound_fields p)
    as (_ & Hover & _ & _ & _ & _ & Hhid & Hbest & Hround & Hflap).
  assert (H0 : intervals (startNextRound p)
               = [{| intervalId := id; count := 3 |}]).
  { unfold startNextRound, startCountdown. cbn [intervals]. now rewrite Hnil. }
  assert (Hc0 : countdownInterval (startNextRound p) = Some id) by reflexivity.
  pose proof (countdown_callback (startNextRound p) id 3 H0 Hc0) as E1.
  cbn [Z.gtb Z.sub Z.compare Z.add Z.opp Z.pos_sub Pos.pred_double
       Pos.compare Pos.compare_cont] in E1.
  rewrite E1.
  match type of E1 with _ = ?r => set (p1 := r) in * end.
  pose proof (countdown_callback p1 id 2 eq_refl eq_refl) as E2.
  cbn [Z.gtb Z.sub Z.compare Z.add Z.opp Z.pos_sub Pos.pred_double
       Pos.compare Pos.compare_cont] in E2.
  rewrite E2.
  match type of E2 with _ = ?r => set (p2 := r) in * end.
  pose proof (countdown_callback p2 id 1 eq_refl eq_refl) as E3.
  cbn [Z.gtb Z.sub Z.compare Z.add Z.opp Z.pos_sub Pos.pred_double
       Pos.compare Pos.compare_cont] in E3.
  rewrite E3. clear E1 E2 E3.
  cbn [game countdownOverlayHidden intervals p1 p2].
  unfold p2, p1. cbn [game]. rewrite Hover. cbn [negb].
  destruct (beginGameplay_fields (game (startNextRound p)))
    as (A & B & C & D & E & F & G & H & I & J).
  rewrite A, B, C, D, E, F, G, H, I, J, Hround, Hbest, Hflap, Hhid.
  repeat split.
Qed.

Lemma next_round_starts_fresh_witness :
  currentRound
    (game (pageRun [NextRoundClick; TimerFires 2; TimerFires 2; TimerFires 2]
             roundOverPage)) = 2%Z /\
  gameStarted
    (game (pageRun [NextRoundClick; TimerFires 2; TimerFires 2; TimerFires 2]
             roundOverPage)) = true.
Proof.
  destruct (next_round_starts_fresh roundOverPage eq_refl)
    as (A & _ & _ & _ & _ & _ & B & _).
  split; [exact B | exact A].
Defined.

(** *** Two countdowns at once *)

(** A callback of a live timer other than the recorded one, when the
    recorded one is live too and the count runs out. *)
Lemma stale_timer_callback (p : GamePage) (a b : positive) (c cb : Z) :
  a <> b ->
  intervals p = [{| intervalId := a; count := c |};
                 {| intervalId := b; count := cb |}] ->
  countdownInterval p = Some b ->
  intervalFires a p
  = if (c - 1 >? 0)%Z
    then {| game := game p;
            countdownOverlayHidden := countdownOverlayHidden p;
            countdownInterval := Some b;
            intervals := [{| intervalId := a; count := (c - 1)%Z |};
                          {| intervalId := b; count := cb |}];
            nextIntervalId := nextIntervalId p |}
    else {| game := if negb (gameOver (game p)) then beginGameplay (game p)
                    else game p;
            countdownOverlayHidden := true;
            countdownInterval := Some b;
            intervals := [{| intervalId := a; count := (c - 1)%Z |}];
            nextIntervalId := nextIntervalId p |}.
Proof.
  intros Hab Hl Hc. unfold intervalFires. rewrite Hl, Hc.
  assert (Hba : (b =? a)%positive = false) by (apply Pos.eqb_neq; congruence).
  assert (Hab' : (a =? b)%positive = false) by now apply Pos.eqb_neq.
  cbn [find intervalId map count clearInterval].
  rewrite Pos.eqb_refl, Hba. cbn [count].
  destruct (c - 1 >? 0)%Z; [reflexivity |].
  cbn [filter intervalId]. rewrite Hab', Pos.eqb_refl. reflexivity.
Qed.

(** Later callbacks of a timer that is live but not the recorded one. *)
Lemma orphan_timer_callback (p : GamePage) (a b : positive) (c : Z) :
  a <> b -> (c <= 1)%Z ->
  intervals p = [{| intervalId := a; count := c |}] ->
  countdownInterval p = Some b ->
  intervalFires a p
  = {| game := if negb (gameOver (game p)) then beginGameplay (game p)
               else game p;
       countdownOverlayHidden := true;
       countdownInterval := Some b;
       intervals := [{| intervalId := a; count := (c - 1)%Z |}];
       nextIntervalId := nextIntervalId p |}.
Proof.
  intros Hab Hc Hl Hci. unfold intervalFires. rewrite Hl, Hci.
  assert (Hab' : (a =? b)%positive = false) by now apply Pos.eqb_neq.
  cbn [find intervalId map count clearInterval].
  rewrite Pos.eqb_refl. cbn [count].
  assert (E : (c - 1 >? 0)%Z = false) by (rewrite Z.gtb_ltb; apply Z.ltb_ge; lia).
  rewrite E. cbn [filter intervalId]. now rewrite Hab'.
Qed.

(** X21: when [startCountdown] runs twice with no callback in between,
    two timers are live and the field records only the second.  The
    third callback of the first timer then clears the second timer, not
    itself, and begins the gameplay; the first timer stays live, and each
    further callback of it runs [beginGameplay] again on whatever the
    game has become, as long as the terminal flag is clear. *)
Theorem overlapping_countdowns_leave_a_live_timer (p : GamePage) :
  intervals p = [] ->
  let a := nextIntervalId p in
  let b := Pos.succ a in
  let p3 := intervalFires a
              (intervalFires a
                 (intervalFires a (startCountdown (startCountdown p)))) in
  countdownInterval p3 = Some b /\
  intervals p3 = [{| intervalId := a; count := 0 |}] /\
  game p3 = (if gameOver (game p) then game p else beginGameplay (game p)) /\
  (forall f : FlappyGame -> FlappyGame,
      gameOver (f (game p3)) = false ->
      game (intervalFires a (onGame f p3)) = beginGameplay (f (game p3)) /\
      intervals (intervalFires a (onGame f p3))
      = [{| intervalId := a; count := (-1)%Z |}]).
Proof.
  intro Hnil. cbv zeta.
  set (a := nextIntervalId p). set (b := Pos.succ a).
  assert (Hab : a <> b).
  { unfold b. intro E. apply (f_equal Pos.to_nat) in E.
    rewrite Pos2Nat.inj_succ in E. lia. }
  assert (H0 : intervals (startCountdown (startCountdown p))
               = [{| intervalId := a; count := 3 |};
                  {| intervalId := b; count := 3 |}]).
  { unfold startCountdown. cbn [intervals nextIntervalId]. now rewrite Hnil. }
  assert (Hc0 : countdownInterval (startCountdown (startCountdown p)) = Some b)
    by reflexivity.
  pose proof (stale_timer_callback _ a b 3 3 Hab H0 Hc0) as E1.
  cbn [Z.gtb Z.sub Z.compare Z.add Z.opp Z.pos_sub Pos.pred_double
       Pos.compare Pos.compare_cont] in E1.
  rewrite E1.
  match type of E1 with _ = ?r => set (p1 := r) in * end.
  pose proof (stale_timer_callback p1 a b 2 3 Hab eq_refl eq_refl) as E2.
  cbn [Z.gtb Z.sub Z.compare Z.add Z.opp Z.pos_sub Pos.pred_double
       Pos.compare Pos.compare_cont] in E2.
  rewrite E2.
  match type of E2 with _ = ?r => set (p2 := r) in * end.
  pose proof (stale_timer_callback p2 a b 1 3 Hab eq_refl eq_refl) as E3.
  cbn [Z.gtb Z.sub Z.compare Z.add Z.opp Z.pos_sub Pos.pred_double
       Pos.compare Pos.compare_cont] in E3.
  rewrite E3. clear E1 E2 E3.
  match goal with |- context [countdownInterval ?r = _] => set (p3 := r) end.
  split; [reflexivity |]. split; [reflexivity |]. split.
  - cbn. now destruct (gameOver (game p)).
  - intros f Hf.
    rewrite (orphan_timer_callback (onGame f p3) a b 0 Hab);
      [| lia | reflexivity | reflexivity].
    cbn [game intervals onGame]. rewrite Hf. cbn [negb]. split; reflexivity.
Qed.

Lemma overlapping_countdowns_leave_a_live_timer_witness :
  game (intervalFires 1
          (onGame (update (1 # 2) 1700000004000)
             (intervalFires 1
                (intervalFires 1
                   (intervalFires 1
                      (startCountdown (startCountdown readyPage)))))))
  = beginGameplay
      (update (1 # 2) 1700000004000 (beginGameplay constructedGame)).
Proof.
  destruct (overlapping_countdowns_leave_a_live_timer readyPage eq_refl)
    as (_ & _ & _ & H).
  destruct (H (update (1 # 2) 1700000004000) eq_refl) as [Hg _].
  exact Hg.
Defined.

End PageFacts.
